(** * Bank send authorization (x/bank/types/send_authorization.go)

    A shallow embedding of [SendAuthorization] -- its constructor, its
    [Accept] decision and its [ValidateBasic] check -- together with the
    properties the specification states about them.

    Go slices are lists (the nil slice and the empty slice are both [[]],
    which is all that [len] and [range] can observe), [math.Int] amounts
    are [Z], a Go [(value, error)] pair is a pair whose second component
    is an [option], and a Go panic is the [Panic] outcome of [panicking]. *)

From Stdlib Require Import ZArith List String Bool Lia.
From stdpp Require Import gmap strings list.
Import ListNotations.

Local Open Scope string_scope.
Local Open Scope Z_scope.

(** ** Panics *)

(** What a panic carries: the out-of-gas value of the gas meter, or the
    error of the address codec that [toBech32Addresses] panics with. *)
Inductive panicValue : Type :=
| ErrorOutOfGas (descriptor : string)
| CodecError (reason : string).

Inductive panicking (A : Type) : Type :=
| Done (a : A)
| Panic (v : panicValue).
Arguments Done {A} a.
Arguments Panic {A} v.

#[global] Instance panicking_ret : MRet panicking := fun A a => Done a.

#[global] Instance panicking_bind : MBind panicking := fun A B k c =>
  match c with
  | Done a => k a
  | Panic v => Panic v
  end.

(** ** Coins *)

Module coin.

(** Modelled from the spec: [sdk.Coin] of types/coin.go, a (denomination,
    amount) pair.  The amount is a signed big integer: a checked
    subtraction has to be able to see a negative difference. *)
Record Coin : Type := NewCoin { Denom : string; Amount : Z }.

(** Modelled from the spec: [sdk.Coins] of types/coin.go, "an ordered set
    of (denomination, amount) pairs". *)
Definition Coins : Type := list Coin.

Definition denoms (coins : Coins) : list string := List.map Denom coins.

(** Modelled from the spec: [Coins.AmountOf], the amount a coin set holds
    in one denomination; a denomination that is absent holds zero. *)
Fixpoint AmountOf (coins : Coins) (denom : string) : Z :=
  match coins with
  | [] => 0
  | c :: rest =>
      (if String.eqb (Denom c) denom then Amount c else 0) + AmountOf rest denom
  end.

(** Modelled from the spec: [Coins.IsZero], "every denomination's residual
    limit is exactly zero". *)
Definition IsZero (coins : Coins) : bool :=
  forallb (fun c => Amount c =? 0) coins.

(** Modelled from the spec: [Coins.IsAllPositive], "non-empty and every
    amount strictly positive". *)
Definition IsAllPositive (coins : Coins) : bool :=
  match coins with
  | [] => false
  | _ => forallb (fun c => 0 <? Amount c) coins
  end.

(** Modelled from the spec: [Coins.IsAnyNegative], "negative in any
    denomination". *)
Definition IsAnyNegative (coins : Coins) : bool :=
  existsb (fun c => Amount c <? 0) coins.

(** The denominations of a list, each once, in order of first appearance
    (the keys of the per-denomination table the subtraction works on). *)
Fixpoint distinct (seen : list string) (ds : list string) : list string :=
  match ds with
  | [] => []
  | d :: rest =>
      if existsb (String.eqb d) seen then distinct seen rest
      else d :: distinct (d :: seen) rest
  end.

(** Modelled from the spec: [Coins.SafeSub], "subtract the transfer amount
    from spend_limit, per denomination, using checked subtraction across
    the whole multi-denomination set", with the flag telling whether "the
    result would be negative in any denomination".  A denomination whose
    difference is zero has no entry in the result: a limit of zero "must
    never be stored", and an exhausted limit is the empty set. *)
Definition SafeSub (coins coinsB : Coins) : Coins * bool :=
  let diff :=
    List.filter (fun c => negb (Amount c =? 0))
      (List.map (fun d => NewCoin d (AmountOf coins d - AmountOf coinsB d))
         (distinct [] (denoms coins ++ denoms coinsB))) in
  (diff, IsAnyNegative diff).

End coin.

(** ** Gas metering *)

Module gas.

Definition Gas : Type := Z.

(** Modelled from the spec: the gas meter behind [sdk.Context], "a shared,
    mutable, per-execution-context resource budget". *)
Record GasMeter : Type := { limit : Gas; consumed : Gas }.

(** Modelled from the spec: [GasMeter.ConsumeGas], the "charge resource
    units" capability; "an out-of-budget condition during metering aborts
    evaluation with a resource-exhaustion failure". *)
Definition ConsumeGas (amount : Gas) (descriptor : string) (g : GasMeter)
  : panicking GasMeter :=
  let total := consumed g + amount in
  if limit g <? total then Panic (ErrorOutOfGas descriptor)
  else Done {| limit := limit g; consumed := total |}.

End gas.

(** ** Errors *)

Module sdkerrors.

(** Modelled from the spec: the registered errors of types/errors and of
    x/bank/types/errors.go that the send authorization returns.  The
    specification calls [ErrInvalidType] TypeMismatch,
    [ErrInsufficientFunds] InsufficientAuthorization, [ErrUnauthorized]
    RecipientNotAuthorized, [ErrInvalidCoins] InvalidLimit and
    [ErrDuplicateEntry] DuplicateAllowListEntry. *)
Inductive registered : Type :=
| ErrInvalidType
| ErrInsufficientFunds
| ErrUnauthorized
| ErrInvalidCoins
| ErrDuplicateEntry.

(** A registered error, bare or wrapped with a description. *)
Inductive error : Type :=
| Bare (e : registered)
| Wrap (e : registered) (description : string).

Definition cause (err : error) : registered :=
  match err with
  | Bare e => e
  | Wrap e _ => e
  end.

End sdkerrors.

(** ** authz.AcceptResponse *)

Module authz.

(** Modelled from the spec: [authz.AcceptResponse] of x/authz, "one of
    Rejected(reason), Accepted(delete=true), Accepted(delete=false,
    updated_record)", with the three fields [Accept] fills.  [Updated] is
    an [Authorization] interface value; the only implementation in scope is
    the send authorization, so the record is parameterised by it, and
    [None] is the nil interface. *)
Record AcceptResponse (Auth : Type) : Type :=
  { Accept : bool; Delete : bool; Updated : option Auth }.
Arguments Accept {Auth} _.
Arguments Delete {Auth} _.
Arguments Updated {Auth} _.

(** The zero value [authz.AcceptResponse{}]. *)
Definition zero {Auth : Type} : AcceptResponse Auth :=
  {| Accept := false; Delete := false; Updated := None |}.

End authz.


(** ** core/address.Codec *)

Module address.

Definition AccAddress : Type := list Byte.byte.

(** Modelled from the spec: the [address.Codec] interface of core/address,
    the "canonical string encoding" of addresses, as far as the send
    authorization uses it: [BytesToString] returns the text form and a
    possibly-nil error. *)
Class Codec : Type :=
  { BytesToString : AccAddress -> string * option string }.

End address.

(** ** x/bank/types *)

Module bank.
Import coin gas sdkerrors address.

(** Modelled from the spec: [sdk.Context], as far as [Accept] uses it: it
    carries the gas meter that the allow-list scan charges. *)
Record Context : Type := { gasMeter : GasMeter }.

(** Modelled from the spec: [MsgSend] of the generated tx.pb.go, the
    transfer description "recipient, amount" (and the sender). *)
Record MsgSend : Type :=
  { FromAddress : string; ToAddress : string; Amount : Coins }.

(** [sdk.Msg] is an interface; [Accept] only tells a [*MsgSend] from any
    other message, which is identified here by its type URL. *)
Inductive Msg : Type :=
| IsMsgSend (mSend : MsgSend)
| OtherMsg (typeURL : string).

(** Modelled from the spec: the [SendAuthorization] record of the generated
    authz.pb.go, with its two fields [spend_limit] and [allow_list]. *)
Record SendAuthorization : Type :=
  { SpendLimit : Coins; AllowList : list string }.

(** The generated getter of [AllowList]. *)
Definition GetAllowList (a : SendAuthorization) : list string := AllowList a.

Definition gasCostPerIteration : Gas := 10.

(** The [for _, addr := range allowedList] loop of [Accept]: every entry
    looked at is charged before it is compared, and the loop is left at
    the first match. *)
Fixpoint scanAllowList (toAddr : string) (allowedList : list string) (g : GasMeter)
  : panicking (bool * GasMeter) :=
  match allowedList with
  | [] => Done (false, g)
  | addr :: rest =>
      g' ← ConsumeGas gasCostPerIteration "send authorization" g;
      if String.eqb addr toAddr then Done (true, g')
      else scanAllowList toAddr rest g'
  end.

Definition Accept (a : SendAuthorization) (ctx : Context) (msg : Msg)
  : panicking (authz.AcceptResponse SendAuthorization * option error * Context) :=
  match msg with
  | OtherMsg _ =>
      Done (authz.zero, Some (Wrap ErrInvalidType "type mismatch"), ctx)
  | IsMsgSend mSend =>
      let '(limitLeft, isNegative) := SafeSub (SpendLimit a) (Amount mSend) in
      if isNegative then
        Done (authz.zero,
              Some (Wrap ErrInsufficientFunds "requested amount is more than spend limit"),
              ctx)
      else
        let toAddr := ToAddress mSend in
        let allowedList := GetAllowList a in
        '(isAddrExists, g') ← scanAllowList toAddr allowedList (gasMeter ctx);
        let ctx' := {| gasMeter := g' |} in
        if (0 <? length allowedList)%nat && negb isAddrExists then
          Done (authz.zero,
                Some (Wrap ErrUnauthorized ("cannot send to " ++ toAddr ++ " address")),
                ctx')
        else if IsZero limitLeft then
          Done ({| authz.Accept := true; authz.Delete := true; authz.Updated := None |},
                None, ctx')
        else
          Done ({| authz.Accept := true; authz.Delete := false;
                   authz.Updated :=
                     Some {| SpendLimit := limitLeft; AllowList := allowedList |} |},
                None, ctx')
  end.

(** The duplicate scan of [ValidateBasic], with its [found] table. *)
Fixpoint scanDuplicates (found : gmap string bool) (allowList : list string)
  : option error :=
  match allowList with
  | [] => None
  | entry :: rest =>
      if default false (found !! entry) then Some (Bare ErrDuplicateEntry)
      else scanDuplicates (<[entry := true]> found) rest
  end.

Definition ValidateBasic (a : SendAuthorization) : option error :=
  if (length (SpendLimit a) =? 0)%nat then
    Some (Wrap ErrInvalidCoins "spend limit cannot be nil")
  else if negb (IsAllPositive (SpendLimit a)) then
    Some (Wrap ErrInvalidCoins "spend limit must be positive")
  else scanDuplicates ∅ (AllowList a).

(** The loop of [toBech32Addresses]: slot [i] of the pre-sized slice
    receives the text form of the [i]-th address; an encoding error
    panics. *)
Fixpoint encodeInto `{Codec} (i : nat) (allowed : list AccAddress)
    (allowedAddrs : list string) : panicking (list string) :=
  match allowed with
  | [] => Done allowedAddrs
  | addr :: rest =>
      match BytesToString addr with
      | (_, Some err) => Panic (CodecError err)
      | (addrStr, None) => encodeInto (S i) rest (<[i := addrStr]> allowedAddrs)
      end
  end.

Definition toBech32Addresses `{Codec} (allowed : list AccAddress)
  : panicking (list string) :=
  if (length allowed =? 0)%nat then Done []
  else encodeInto 0 allowed (replicate (length allowed) "").

Definition NewSendAuthorization `{Codec} (spendLimit : Coins)
    (allowed : list AccAddress) : panicking SendAuthorization :=
  allowList ← toBech32Addresses allowed;
  Done {| AllowList := allowList; SpendLimit := spendLimit |}.

End bank.


(** * Vocabulary of the properties *)

Import coin gas sdkerrors address bank.

(** The per-denomination table [d |-> f d], zero entries left out: the
    shape of every result of [SafeSub]. *)
Definition table (f : string -> Z) (ds : list string) : Coins :=
  List.filter (fun c => negb (coin.Amount c =? 0))
    (List.map (fun d => NewCoin d (f d)) ds).

(** A transfer asks for more than the limit holds in some denomination (a
    denomination the limit does not list holds zero). *)
Definition overspends (limit amount : Coins) : bool :=
  existsb (fun d => AmountOf limit d <? AmountOf amount d)
    (denoms limit ++ denoms amount).

(** A transfer is limit-valid when it passes the limit check of [Accept]. *)
Definition limitValid (a : SendAuthorization) (mSend : MsgSend) : Prop :=
  (SafeSub (SpendLimit a) (Amount mSend)).2 = false.

Definition nonNegative (coins : Coins) : Prop :=
  Forall (fun c => 0 <= coin.Amount c) coins.

Definition allPositive (coins : Coins) : Prop :=
  Forall (fun c => 0 < coin.Amount c) coins.

(** [n] successive charges of the per-entry cost. *)
Fixpoint chargeTimes (n : nat) (g : GasMeter) : panicking GasMeter :=
  match n with
  | O => Done g
  | S n' =>
      g' ← ConsumeGas gasCostPerIteration "send authorization" g;
      chargeTimes n' g'
  end.

(** The meter after [n] charges that all fit the budget. *)
Definition charged (n : nat) (g : GasMeter) : GasMeter :=
  {| limit := limit g; consumed := consumed g + gasCostPerIteration * Z.of_nat n |}.

(** The budget covers a scan of the whole allow-list. *)
Definition budgetFor (a : SendAuthorization) (ctx : Context) : Prop :=
  consumed (gasMeter ctx)
    + gasCostPerIteration * Z.of_nat (length (AllowList a)) <= limit (gasMeter ctx).

(** The meter a run of [Accept] leaves behind, or the panic it ends in. *)
Definition meterAfter {A : Type} (r : panicking (A * Context)) : panicking GasMeter :=
  '(_, ctx') ← r; Done (gasMeter ctx').

(** The number of entries the scan looks at: up to and including the first
    match, or all of them. *)
Fixpoint scanned (toAddr : string) (allowedList : list string) : nat :=
  match allowedList with
  | [] => O
  | addr :: rest =>
      if String.eqb addr toAddr then 1%nat else S (scanned toAddr rest)
  end.

Definition listed (toAddr : string) (allowedList : list string) : bool :=
  existsb (fun addr => String.eqb addr toAddr) allowedList.

(** The three rejections of [Accept] and its two acceptances. *)
Definition typeMismatch : error := Wrap ErrInvalidType "type mismatch".

Definition insufficient : error :=
  Wrap ErrInsufficientFunds "requested amount is more than spend limit".

Definition unauthorized (toAddr : string) : error :=
  Wrap ErrUnauthorized ("cannot send to " ++ toAddr ++ " address").

Definition deleteResponse : authz.AcceptResponse SendAuthorization :=
  {| authz.Accept := true; authz.Delete := true; authz.Updated := None |}.

Definition updateResponse (updated : SendAuthorization)
  : authz.AcceptResponse SendAuthorization :=
  {| authz.Accept := true; authz.Delete := false; authz.Updated := Some updated |}.

(** What [Accept] answers once the limit check has passed and the scan has
    returned. *)
Definition afterScan (a : SendAuthorization) (mSend : MsgSend)
  : authz.AcceptResponse SendAuthorization * option error :=
  let limitLeft := (SafeSub (SpendLimit a) (Amount mSend)).1 in
  if (0 <? length (AllowList a))%nat && negb (listed (ToAddress mSend) (AllowList a))
  then (authz.zero, Some (unauthorized (ToAddress mSend)))
  else if IsZero limitLeft then (deleteResponse, None)
  else (updateResponse {| SpendLimit := limitLeft; AllowList := AllowList a |}, None).

(** The four outcomes a caller tells apart. *)
Inductive outcome : Type :=
| TypeMismatch
| InsufficientAuthorization
| RecipientNotAuthorized
| Success.

(** The outcome a returned (response, error) pair stands for; a pair that
    is none of the four (an error of [ValidateBasic], say) stands for none. *)
Definition outcomeOf (r : authz.AcceptResponse SendAuthorization * option error)
  : option outcome :=
  match r.2 with
  | None => if authz.Accept r.1 then Some Success else None
  | Some err =>
      match cause err with
      | ErrInvalidType => Some TypeMismatch
      | ErrInsufficientFunds => Some InsufficientAuthorization
      | ErrUnauthorized => Some RecipientNotAuthorized
      | ErrInvalidCoins | ErrDuplicateEntry => None
      end
  end.

(** The outcome the specification prescribes, check by check in its fixed
    order: type, limit, allow-list, success. *)
Definition specifiedOutcome (a : SendAuthorization) (msg : Msg) : outcome :=
  match msg with
  | OtherMsg _ => TypeMismatch
  | IsMsgSend mSend =>
      if overspends (SpendLimit a) (Amount mSend) then InsufficientAuthorization
      else if negb (length (AllowList a) =? 0)%nat
              && negb (listed (ToAddress mSend) (AllowList a))
      then RecipientNotAuthorized
      else Success
  end.

(** A sequence of transfers, each accepted against the record its
    predecessor left behind. *)
Inductive acceptedRun : SendAuthorization -> list MsgSend -> SendAuthorization -> Prop :=
| run_done a : acceptedRun a [] a
| run_step a ctx mSend ctx' a1 rest a2 :
    Accept a ctx (IsMsgSend mSend) = Done (updateResponse a1, None, ctx') ->
    acceptedRun a1 rest a2 ->
    acceptedRun a (mSend :: rest) a2.

(** An entry the [found] table of [ValidateBasic] does not hold yet. *)
Definition unseen (found : gmap string bool) (entry : string) : Prop :=
  default false (found !! entry) = false.

(** The text forms a codec gives a list of addresses. *)
Definition encodings `{Codec} (allowed : list AccAddress) : list string :=
  List.map (fun addr => (BytesToString addr).1) allowed.

Definition encodes `{Codec} (addr : AccAddress) : Prop :=
  (BytesToString addr).2 = None.

(** ** Sample records and transfers *)

Definition atom (n : Z) : Coin := NewCoin "atom" n.

Definition send (toAddr : string) (amount : Coins) : MsgSend :=
  {| FromAddress := "granter"; ToAddress := toAddr; Amount := amount |}.

Definition openRecord : SendAuthorization :=
  {| SpendLimit := [atom 100]; AllowList := [] |}.

Definition listRecord : SendAuthorization :=
  {| SpendLimit := [atom 50]; AllowList := ["B"] |}.

Definition freshContext : Context :=
  {| gasMeter := {| limit := 1000; consumed := 0 |} |}.

(** A codec for the samples: one byte becomes one character; the empty
    address has no text form. *)
Definition sampleCodec : Codec :=
  {| BytesToString addr :=
       match addr with
       | [] => ("", Some "empty address")
       | _ => (string_of_list_ascii (List.map Ascii.ascii_of_byte addr), None)
       end |}.

(** ** Vocabulary of the further properties *)

(** The (response, error) pair [Accept] returns when it returns: the type
    check, the limit check, then the answer after the scan. *)
Definition decision (a : SendAuthorization) (msg : Msg)
  : authz.AcceptResponse SendAuthorization * option error :=
  match msg with
  | OtherMsg _ => (authz.zero, Some typeMismatch)
  | IsMsgSend mSend =>
      if (SafeSub (SpendLimit a) (Amount mSend)).2 then (authz.zero, Some insufficient)
      else afterScan a mSend
  end.

(** What a sequence of transfers asks for in one denomination, in total. *)
Fixpoint spent (transfers : list MsgSend) (denom : string) : Z :=
  match transfers with
  | [] => 0
  | mSend :: rest => AmountOf (Amount mSend) denom + spent rest denom
  end.

(** The budget that covers [n] charges from scratch. *)
Definition budgetContext (n : nat) : Context :=
  {| gasMeter := {| limit := gasCostPerIteration * Z.of_nat n; consumed := 0 |} |}.

(** * Properties *)



(** ** Coin arithmetic *)

Section CoinFacts.

Implicit Types (coins coinsB : Coins) (d denom : string) (ds seen : list string).

Lemma existsb_eqb_In d seen : existsb (String.eqb d) seen = true <-> In d seen.
Proof.
  rewrite existsb_exists. split.
  - intros [x [Hin Heq]]. apply String.eqb_eq in Heq. now subst.
  - intros Hin. exists d. split; [assumption | apply String.eqb_refl].
Qed.

Lemma distinct_In seen ds d :
  In d (distinct seen ds) <-> In d ds /\ ~ In d seen.
Proof.
  revert seen. induction ds as [|x ds IH]; intros seen; simpl.
  - tauto.
  - destruct (existsb (String.eqb x) seen) eqn:E.
    + apply existsb_eqb_In in E. rewrite IH. split.
      * tauto.
      * intros [[-> | Hin] Hn]; [contradiction | tauto].
    + assert (Hx : ~ In x seen).
      { intros Hin. apply existsb_eqb_In in Hin. congruence. }
      simpl. rewrite IH. simpl. split.
      * intros [-> | [Hin Hn]]; [tauto | tauto].
      * intros [[-> | Hin] Hn]; [tauto |].
        destruct (string_dec x d) as [-> | Hne]; [tauto | right; tauto].
Qed.

Lemma distinct_NoDup seen ds : List.NoDup (distinct seen ds).
Proof.
  revert seen. induction ds as [|x ds IH]; intros seen; simpl.
  - constructor.
  - destruct (existsb (String.eqb x) seen); [apply IH |].
    constructor; [| apply IH].
    rewrite distinct_In. simpl. tauto.
Qed.

Lemma AmountOf_absent coins d : ~ In d (denoms coins) -> AmountOf coins d = 0.
Proof.
  induction coins as [|c coins IH]; simpl; intros Hn; [reflexivity |].
  destruct (String.eqb_spec (Denom c) d) as [Heq | Hne]; [tauto |].
  rewrite IH; [lia | tauto].
Qed.

Lemma table_In f ds c :
  In c (table f ds) <->
  In (Denom c) ds /\ coin.Amount c = f (Denom c) /\ coin.Amount c <> 0.
Proof.
  unfold table. rewrite filter_In, in_map_iff, negb_true_iff, Z.eqb_neq. split.
  - intros [[d [<- Hin]] Hnz]. simpl in *. tauto.
  - intros (Hin & Heq & Hnz). split; [| assumption].
    exists (Denom c). split; [| assumption].
    destruct c as [dn am]. simpl in *. now subst.
Qed.

Lemma table_denoms_absent f ds d : ~ In d ds -> ~ In d (denoms (table f ds)).
Proof.
  intros Hn Hin. unfold denoms in Hin. apply in_map_iff in Hin.
  destruct Hin as [c [<- Hc]]. apply table_In in Hc. tauto.
Qed.

Lemma AmountOf_table f ds d :
  List.NoDup ds ->
  AmountOf (table f ds) d = if in_dec string_dec d ds then f d else 0.
Proof.
  intros Hnd. destruct (in_dec string_dec d ds) as [Hin | Hn].
  2:{ apply AmountOf_absent. now apply table_denoms_absent. }
  induction Hnd as [|x ds Hx Hnd IH]; [destruct Hin |].
  unfold table in *. simpl.
  destruct (string_dec x d) as [-> | Hne].
  - assert (Hrest : AmountOf (table f ds) d = 0).
    { apply AmountOf_absent. now apply table_denoms_absent. }
    unfold table in Hrest.
    destruct (Z.eqb_spec (f d) 0) as [Hz | Hnz]; simpl.
    + rewrite Hrest. lia.
    + rewrite String.eqb_refl, Hrest. lia.
  - assert (Hin' : In d ds) by (destruct Hin; [contradiction | assumption]).
    destruct (Z.eqb_spec (f x) 0) as [Hz | Hnz]; simpl.
    + now apply IH.
    + destruct (String.eqb_spec x d); [contradiction |].
      rewrite IH by assumption. lia.
Qed.

Lemma SafeSub_table coins coinsB :
  (SafeSub coins coinsB).1 =
  table (fun d => AmountOf coins d - AmountOf coinsB d)
    (distinct [] (denoms coins ++ denoms coinsB)).
Proof. reflexivity. Qed.

Lemma SafeSub_flag coins coinsB :
  (SafeSub coins coinsB).2 = IsAnyNegative (SafeSub coins coinsB).1.
Proof. reflexivity. Qed.

(** The residual holds, in every denomination, the limit less the amount
    requested. *)
Lemma AmountOf_SafeSub coins coinsB d :
  AmountOf (SafeSub coins coinsB).1 d = AmountOf coins d - AmountOf coinsB d.
Proof.
  rewrite SafeSub_table, AmountOf_table by apply distinct_NoDup.
  destruct (in_dec string_dec d _) as [Hin | Hn]; [reflexivity |].
  rewrite distinct_In, in_app_iff in Hn.
  rewrite !AmountOf_absent; [lia | tauto | tauto].
Qed.

Lemma SafeSub_In coins coinsB c :
  In c (SafeSub coins coinsB).1 ->
  coin.Amount c = AmountOf coins (Denom c) - AmountOf coinsB (Denom c) /\
  coin.Amount c <> 0.
Proof. rewrite SafeSub_table, table_In. tauto. Qed.

Lemma SafeSub_entry coins coinsB d :
  AmountOf coins d - AmountOf coinsB d <> 0 ->
  In (NewCoin d (AmountOf coins d - AmountOf coinsB d)) (SafeSub coins coinsB).1.
Proof.
  intros Hnz. rewrite SafeSub_table, table_In. simpl.
  split; [| split; [reflexivity | assumption]].
  rewrite distinct_In, in_app_iff. split; [| tauto].
  destruct (in_dec string_dec d (denoms coins)) as [? | Hn1]; [tauto |].
  destruct (in_dec string_dec d (denoms coinsB)) as [? | Hn2]; [tauto |].
  rewrite !AmountOf_absent in Hnz by assumption. lia.
Qed.

(** The subtraction reports a negative result exactly when some
    denomination is requested beyond what the limit holds. *)
Lemma SafeSub_negative_iff coins coinsB :
  (SafeSub coins coinsB).2 = true <->
  exists d, AmountOf coins d < AmountOf coinsB d.
Proof.
  rewrite SafeSub_flag. unfold IsAnyNegative. rewrite existsb_exists. split.
  - intros [c [Hin Hneg]]. apply SafeSub_In in Hin. apply Z.ltb_lt in Hneg.
    exists (Denom c). lia.
  - intros [d Hlt]. eexists. split.
    + apply (SafeSub_entry coins coinsB d). lia.
    + simpl. apply Z.ltb_lt. lia.
Qed.

Lemma SafeSub_nonneg coins coinsB :
  (SafeSub coins coinsB).2 = false <->
  forall d, AmountOf coinsB d <= AmountOf coins d.
Proof.
  rewrite <- not_true_iff_false, SafeSub_negative_iff. split.
  - intros Hn d. destruct (Z_le_gt_dec (AmountOf coinsB d) (AmountOf coins d));
      [assumption |]. exfalso. apply Hn. exists d. lia.
  - intros Hall [d Hlt]. specialize (Hall d). lia.
Qed.

(** The residual is zero exactly when it is empty, that is, when the
    request equals the limit in every denomination. *)
Lemma SafeSub_IsZero_nil coins coinsB :
  IsZero (SafeSub coins coinsB).1 = true <-> (SafeSub coins coinsB).1 = [].
Proof.
  split.
  - intros Hz. destruct (SafeSub coins coinsB).1 as [|c rest] eqn:E; [reflexivity |].
    assert (Hin : In c (SafeSub coins coinsB).1) by (rewrite E; now left).
    apply SafeSub_In in Hin. simpl in Hz. apply andb_true_iff in Hz.
    destruct Hz as [Hz _]. apply Z.eqb_eq in Hz. tauto.
  - intros ->. reflexivity.
Qed.

Lemma SafeSub_IsZero_iff coins coinsB :
  IsZero (SafeSub coins coinsB).1 = true <->
  forall d, AmountOf coins d - AmountOf coinsB d = 0.
Proof.
  rewrite SafeSub_IsZero_nil. split.
  - intros Hnil d. rewrite <- AmountOf_SafeSub, Hnil. reflexivity.
  - intros Hall. destruct (SafeSub coins coinsB).1 as [|c rest] eqn:E; [reflexivity |].
    assert (Hin : In c (SafeSub coins coinsB).1) by (rewrite E; now left).
    apply SafeSub_In in Hin. specialize (Hall (Denom c)). lia.
Qed.

Lemma table_denoms_NoDup f ds :
  List.NoDup ds -> List.NoDup (denoms (table f ds)).
Proof.
  induction 1 as [|x ds Hx Hnd IH]; [constructor |].
  unfold table in *. simpl.
  destruct (negb _); simpl; [| exact IH].
  constructor; [| exact IH].
  now apply table_denoms_absent.
Qed.

Lemma SafeSub_denoms_NoDup coins coinsB :
  List.NoDup (denoms (SafeSub coins coinsB).1).
Proof. rewrite SafeSub_table. apply table_denoms_NoDup, distinct_NoDup. Qed.

End CoinFacts.

(** ** Metering *)

Section Metering.

Implicit Types (g : GasMeter) (toAddr : string) (allowedList : list string).

Lemma listed_In toAddr allowedList :
  listed toAddr allowedList = true <-> In toAddr allowedList.
Proof.
  unfold listed. rewrite existsb_exists. split.
  - intros [x [Hin Heq]]. apply String.eqb_eq in Heq. now subst.
  - intros Hin. exists toAddr. split; [assumption | apply String.eqb_refl].
Qed.

Lemma listed_false toAddr allowedList :
  ~ In toAddr allowedList -> listed toAddr allowedList = false.
Proof. rewrite <- listed_In. now destruct (listed toAddr allowedList). Qed.

Lemma scanned_absent toAddr allowedList :
  ~ In toAddr allowedList -> scanned toAddr allowedList = length allowedList.
Proof.
  induction allowedList as [|addr rest IH]; simpl; intros Hn; [reflexivity |].
  destruct (String.eqb_spec addr toAddr) as [Heq | Hne]; [tauto |].
  rewrite IH; [reflexivity | tauto].
Qed.

Lemma scanned_first toAddr allowedList (i : nat) :
  allowedList !! i = Some toAddr ->
  ~ In toAddr (take i allowedList) ->
  scanned toAddr allowedList = S i.
Proof.
  revert i. induction allowedList as [|addr rest IH]; intros i Hi Hn.
  - destruct i; discriminate.
  - destruct i as [|i]; simpl in *.
    + injection Hi as ->. now rewrite String.eqb_refl.
    + destruct (String.eqb_spec addr toAddr) as [Heq | Hne]; [tauto |].
      rewrite (IH i); [reflexivity | assumption | tauto].
Qed.

Lemma scanned_le toAddr allowedList :
  (scanned toAddr allowedList <= length allowedList)%nat.
Proof.
  induction allowedList as [|addr rest IH]; simpl; [lia |].
  destruct (String.eqb addr toAddr); lia.
Qed.

(** The scan is [scanned] charges, followed by the membership answer. *)
Lemma scanAllowList_charges toAddr allowedList g :
  scanAllowList toAddr allowedList g =
  g' ← chargeTimes (scanned toAddr allowedList) g;
  Done (listed toAddr allowedList, g').
Proof.
  revert g. induction allowedList as [|addr rest IH]; intros g; [reflexivity |].
  unfold listed. simpl. destruct (String.eqb addr toAddr); simpl;
    destruct (ConsumeGas gasCostPerIteration "send authorization" g) as [g1 | v];
    simpl; try reflexivity.
  apply IH.
Qed.

Lemma chargeTimes_within n g :
  consumed g + gasCostPerIteration * Z.of_nat n <= limit g ->
  chargeTimes n g = Done (charged n g).
Proof.
  unfold charged, gasCostPerIteration.
  revert g. induction n as [|n IH]; intros g Hle.
  - destruct g as [l c]. simpl.
    replace (c + 10 * Z.of_nat 0) with c by lia. reflexivity.
  - simpl chargeTimes. unfold ConsumeGas, gasCostPerIteration.
    destruct (Z.ltb_spec (limit g) (consumed g + 10)) as [Hlt | Hge]; [lia |].
    simpl. rewrite IH; simpl; [| lia].
    replace (consumed g + 10 + 10 * Z.of_nat n)
      with (consumed g + 10 * Z.of_nat (S n)) by lia.
    reflexivity.
Qed.

Lemma chargeTimes_beyond n g :
  consumed g <= limit g ->
  limit g < consumed g + gasCostPerIteration * Z.of_nat n ->
  chargeTimes n g = Panic (ErrorOutOfGas "send authorization").
Proof.
  unfold gasCostPerIteration.
  revert g. induction n as [|n IH]; intros g Hle Hlt.
  { change (Z.of_nat 0) with 0 in Hlt. lia. }
  simpl chargeTimes. unfold ConsumeGas, gasCostPerIteration.
  destruct (Z.ltb_spec (limit g) (consumed g + 10)) as [Hlt' | Hge]; [reflexivity |].
  simpl. apply IH; simpl; lia.
Qed.

End Metering.

(** ** The decision of [Accept], branch by branch *)

Section AcceptFacts.

Implicit Types (a : SendAuthorization) (ctx : Context) (mSend : MsgSend).

Lemma Accept_other a ctx typeURL :
  Accept a ctx (OtherMsg typeURL) = Done (authz.zero, Some typeMismatch, ctx).
Proof. reflexivity. Qed.

Lemma Accept_negative a ctx mSend :
  (SafeSub (SpendLimit a) (Amount mSend)).2 = true ->
  Accept a ctx (IsMsgSend mSend) = Done (authz.zero, Some insufficient, ctx).
Proof.
  unfold Accept. destruct (SafeSub _ _) as [limitLeft isNegative]. simpl.
  now intros ->.
Qed.

Lemma Accept_scan a ctx mSend :
  (SafeSub (SpendLimit a) (Amount mSend)).2 = false ->
  Accept a ctx (IsMsgSend mSend) =
  g' ← chargeTimes (scanned (ToAddress mSend) (AllowList a)) (gasMeter ctx);
  Done (afterScan a mSend, {| gasMeter := g' |}).
Proof.
  unfold Accept, afterScan, GetAllowList.
  destruct (SafeSub _ _) as [limitLeft isNegative]. simpl. intros ->.
  rewrite scanAllowList_charges.
  destruct (chargeTimes _ _) as [g' | v]; [| reflexivity]. simpl.
  destruct (_ && _); [reflexivity |].
  destruct (IsZero limitLeft); reflexivity.
Qed.

(** With budget for the whole list, the scan cannot abort. *)
Lemma Accept_within a ctx mSend :
  (SafeSub (SpendLimit a) (Amount mSend)).2 = false ->
  consumed (gasMeter ctx)
    + gasCostPerIteration * Z.of_nat (length (AllowList a)) <= limit (gasMeter ctx) ->
  Accept a ctx (IsMsgSend mSend) =
  Done (afterScan a mSend,
        {| gasMeter :=
             charged (scanned (ToAddress mSend) (AllowList a)) (gasMeter ctx) |}).
Proof.
  intros Hok Hbudget. rewrite Accept_scan by assumption.
  rewrite chargeTimes_within; [reflexivity |].
  pose proof (scanned_le (ToAddress mSend) (AllowList a)).
  unfold gasCostPerIteration in *. lia.
Qed.

Lemma charged_none g : charged 0 g = g.
Proof.
  destruct g as [l c]. unfold charged, gasCostPerIteration. simpl limit.
  simpl consumed. replace (c + 10 * Z.of_nat 0) with c by lia. reflexivity.
Qed.

End AcceptFacts.

(** ** The limit check *)

Section LimitCheck.

Implicit Types (a : SendAuthorization) (ctx : Context) (mSend : MsgSend).

Lemma AmountOf_nonNegative coins d : nonNegative coins -> 0 <= AmountOf coins d.
Proof.
  induction 1 as [|c coins Hc _ IH]; simpl; [lia |].
  destruct (String.eqb (Denom c) d); lia.
Qed.

Lemma overspends_iff limit amount :
  overspends limit amount = true <->
  exists d, AmountOf limit d < AmountOf amount d.
Proof.
  unfold overspends. rewrite existsb_exists. split.
  - intros [d [_ Hlt]]. apply Z.ltb_lt in Hlt. now exists d.
  - intros [d Hlt]. exists d. split; [| now apply Z.ltb_lt].
    rewrite in_app_iff.
    destruct (in_dec string_dec d (denoms limit)) as [? | Hn1]; [tauto |].
    destruct (in_dec string_dec d (denoms amount)) as [? | Hn2]; [tauto |].
    rewrite !AmountOf_absent in Hlt by assumption. lia.
Qed.

Lemma overspends_SafeSub limit amount :
  overspends limit amount = (SafeSub limit amount).2.
Proof.
  apply eq_true_iff_eq. now rewrite overspends_iff, SafeSub_negative_iff.
Qed.

Lemma limitValid_iff a mSend :
  limitValid a mSend <->
  forall d, AmountOf (Amount mSend) d <= AmountOf (SpendLimit a) d.
Proof. apply SafeSub_nonneg. Qed.

(** C1 (no over-spend), as amended.  A transfer that asks, in some
    denomination, for more than the spend limit holds there -- or that asks
    for a positive amount of a denomination the spend limit does not list
    at all -- is rejected with the insufficient-funds error
    ([InsufficientAuthorization] in the specification).  The answer carries
    the zero response: no successor record, no deletion, so the record stays
    as it was and no part of the subtraction is applied; the gas meter is
    not charged either.  Naming an absent denomination with a zero amount
    is not an over-spend: nothing would become negative, and such a
    transfer is not rejected on that account. *)
Theorem Accept_no_overspend a ctx mSend :
  (exists d, AmountOf (SpendLimit a) d < AmountOf (Amount mSend) d) \/
  (exists c, In c (Amount mSend) /\
             ~ In (Denom c) (denoms (SpendLimit a)) /\
             0 < AmountOf (Amount mSend) (Denom c)) ->
  Accept a ctx (IsMsgSend mSend) = Done (authz.zero, Some insufficient, ctx).
Proof.
  intros Hover.
  apply Accept_negative, SafeSub_negative_iff.
  destruct Hover as [[d Hlt] | [c (_ & Habsent & Hpos)]].
  - now exists d.
  - exists (Denom c). rewrite (AmountOf_absent (SpendLimit a)) by assumption.
    exact Hpos.
Qed.

Lemma Accept_no_overspend_witness :
  Accept openRecord freshContext (IsMsgSend (send "Z" [atom 150]))
  = Done (authz.zero, Some insufficient, freshContext) /\
  Accept openRecord freshContext (IsMsgSend (send "Z" [NewCoin "stake" 1]))
  = Done (authz.zero, Some insufficient, freshContext).
Proof.
  split.
  - apply (Accept_no_overspend openRecord freshContext (send "Z" [atom 150])).
    left. exists "atom". vm_compute. reflexivity.
  - apply (Accept_no_overspend openRecord freshContext (send "Z" [NewCoin "stake" 1])).
    right. exists (NewCoin "stake" 1). split; [now left |]. split.
    + simpl. intros [H | []]. discriminate H.
    + vm_compute. reflexivity.
Defined.

(** C1 as first worded fails: a transfer that names a denomination the
    spend limit does not list, with the amount zero, is not rejected.  It
    passes the limit check and is accepted, the successor holding the whole
    limit. *)
Lemma Accept_zero_amount_of_absent_denom :
  let mSend := send "Z" [NewCoin "stake" 0] in
  (exists c, In c (Amount mSend) /\
             ~ In (Denom c) (denoms (SpendLimit openRecord))) /\
  Accept openRecord freshContext (IsMsgSend mSend)
  = Done ({| authz.Accept := true; authz.Delete := false;
             authz.Updated := Some {| SpendLimit := [atom 100]; AllowList := [] |} |},
          None, freshContext) /\
  Accept openRecord freshContext (IsMsgSend mSend)
  <> Done (authz.zero, Some insufficient, freshContext).
Proof.
  cbv zeta. split; [| split].
  - exists (NewCoin "stake" 0). split; [now left |].
    simpl. intros [H | []]. discriminate H.
  - reflexivity.
  - discriminate.
Qed.

End LimitCheck.

(** ** The allow-list check *)

Section AllowListCheck.

Implicit Types (a : SendAuthorization) (ctx : Context) (mSend : MsgSend).

Lemma length_zero_nil {A} (l : list A) : (length l =? 0)%nat = true <-> l = [].
Proof. destruct l; simpl; split; congruence. Qed.

Lemma afterScan_unlisted a mSend :
  AllowList a <> [] ->
  ~ In (ToAddress mSend) (AllowList a) ->
  afterScan a mSend = (authz.zero, Some (unauthorized (ToAddress mSend))).
Proof.
  intros Hne Hn. unfold afterScan. rewrite listed_false by assumption.
  destruct (AllowList a); [congruence | reflexivity].
Qed.

Lemma afterScan_permitted a mSend :
  AllowList a = [] \/ In (ToAddress mSend) (AllowList a) ->
  afterScan a mSend =
  let limitLeft := (SafeSub (SpendLimit a) (Amount mSend)).1 in
  if IsZero limitLeft then (deleteResponse, None)
  else (updateResponse {| SpendLimit := limitLeft; AllowList := AllowList a |}, None).
Proof.
  intros Hok. unfold afterScan.
  destruct Hok as [-> | Hin]; [reflexivity |].
  apply listed_In in Hin. rewrite Hin, andb_false_r. reflexivity.
Qed.

Lemma afterScan_accepts a mSend :
  AllowList a = [] \/ In (ToAddress mSend) (AllowList a) ->
  (afterScan a mSend).2 = None /\ authz.Accept (afterScan a mSend).1 = true.
Proof.
  intros Hok. rewrite afterScan_permitted by assumption. simpl.
  destruct (IsZero _); split; reflexivity.
Qed.

(** Whatever [Accept] returns with the unauthorized error, the allow-list
    was not empty. *)
Lemma unauthorized_only_with_list a ctx msg resp err ctx' :
  Accept a ctx msg = Done (resp, Some err, ctx') ->
  cause err = ErrUnauthorized ->
  AllowList a <> [].
Proof.
  intros Hrun Hcause Hnil. destruct msg as [mSend | typeURL].
  - destruct (SafeSub (SpendLimit a) (Amount mSend)).2 eqn:Hneg.
    + rewrite Accept_negative in Hrun by assumption.
      injection Hrun as _ <- _. discriminate Hcause.
    + rewrite Accept_scan in Hrun by assumption.
      destruct (chargeTimes _ _) as [g' | v]; [| discriminate Hrun].
      simpl in Hrun. injection Hrun as Hafter _.
      pose proof (afterScan_accepts a mSend (or_introl Hnil)) as [Herr _].
      rewrite Hafter in Herr. discriminate Herr.
  - rewrite Accept_other in Hrun. injection Hrun as _ <- _. discriminate Hcause.
Qed.

(** With an empty allow-list a limit-valid transfer is accepted, and the
    context comes back as it went in. *)
Lemma Accept_open a ctx mSend :
  AllowList a = [] ->
  limitValid a mSend ->
  exists resp,
    Accept a ctx (IsMsgSend mSend) = Done (resp, None, ctx) /\
    authz.Accept resp = true.
Proof.
  intros Hnil Hvalid. exists (afterScan a mSend).1.
  rewrite Accept_scan by assumption. rewrite Hnil. simpl.
  destruct (afterScan_accepts a mSend (or_introl Hnil)) as [Herr Hacc].
  split; [| exact Hacc].
  destruct ctx as [g]. destruct (afterScan a mSend) as [resp err].
  simpl in *. now subst.
Qed.

(** C2 (allow-list enforcement).  With a non-empty allow-list, a
    limit-valid transfer to a recipient that is not on the list is rejected
    with the unauthorized error ([RecipientNotAuthorized] in the
    specification), after the whole list has been charged for; the budget
    is taken to cover that scan.  With an empty allow-list [Accept] never
    returns that error, whoever the recipient is: a limit-valid transfer is
    accepted, without any charge. *)
Theorem Accept_allow_list_enforcement a ctx :
  (forall mSend,
     AllowList a <> [] ->
     limitValid a mSend ->
     ~ In (ToAddress mSend) (AllowList a) ->
     budgetFor a ctx ->
     Accept a ctx (IsMsgSend mSend) =
     Done (authz.zero, Some (unauthorized (ToAddress mSend)),
           {| gasMeter := charged (length (AllowList a)) (gasMeter ctx) |})) /\
  (AllowList a = [] ->
     (forall msg resp err ctx',
        Accept a ctx msg = Done (resp, Some err, ctx') ->
        cause err <> ErrUnauthorized) /\
     (forall mSend,
        limitValid a mSend ->
        exists resp,
          Accept a ctx (IsMsgSend mSend) = Done (resp, None, ctx) /\
          authz.Accept resp = true)).
Proof.
  split.
  - intros mSend Hne Hvalid Hn Hbudget.
    rewrite Accept_within by assumption.
    rewrite afterScan_unlisted, scanned_absent by assumption. reflexivity.
  - intros Hnil. split.
    + intros msg resp err ctx' Hrun Hcause.
      now apply (unauthorized_only_with_list a ctx msg resp err ctx').
    + intros mSend Hvalid. now apply Accept_open.
Qed.

Lemma Accept_allow_list_enforcement_witness :
  Accept listRecord freshContext (IsMsgSend (send "C" [atom 10]))
  = Done (authz.zero, Some (unauthorized "C"),
          {| gasMeter := {| limit := 1000; consumed := 10 |} |}) /\
  exists resp,
    Accept openRecord freshContext (IsMsgSend (send "C" [atom 10]))
    = Done (resp, None, freshContext) /\ authz.Accept resp = true.
Proof.
  split.
  - apply (proj1 (Accept_allow_list_enforcement listRecord freshContext)
             (send "C" [atom 10])).
    + discriminate.
    + reflexivity.
    + simpl. intros [H | []]. discriminate H.
    + unfold budgetFor, gasCostPerIteration. simpl. lia.
  - apply (proj2 (Accept_allow_list_enforcement openRecord freshContext) eq_refl).
    reflexivity.
Defined.

End AllowListCheck.

(** ** The residual decision *)

Section ResidualDecision.

Implicit Types (a : SendAuthorization) (ctx : Context) (mSend : MsgSend).

Lemma residual_zero_iff a mSend :
  IsZero (SafeSub (SpendLimit a) (Amount mSend)).1 = true <->
  forall d, AmountOf (SafeSub (SpendLimit a) (Amount mSend)).1 d = 0.
Proof.
  rewrite SafeSub_IsZero_iff. split; intros H d; specialize (H d);
    rewrite AmountOf_SafeSub in *; exact H.
Qed.

(** Everything an acceptance tells: the message was a plain transfer, it
    passed the limit check and the allow-list check, and the response is
    decided by the residual alone. *)
Lemma Accept_accepted a ctx msg resp ctx' :
  Accept a ctx msg = Done (resp, None, ctx') ->
  exists mSend,
    msg = IsMsgSend mSend /\
    limitValid a mSend /\
    (AllowList a = [] \/ In (ToAddress mSend) (AllowList a)) /\
    chargeTimes (scanned (ToAddress mSend) (AllowList a)) (gasMeter ctx)
      = Done (gasMeter ctx') /\
    resp =
      (let limitLeft := (SafeSub (SpendLimit a) (Amount mSend)).1 in
       if IsZero limitLeft then deleteResponse
       else updateResponse {| SpendLimit := limitLeft; AllowList := AllowList a |}).
Proof.
  intros Hrun. destruct msg as [mSend | typeURL];
    [| rewrite Accept_other in Hrun; discriminate Hrun].
  exists mSend. split; [reflexivity |].
  destruct (SafeSub (SpendLimit a) (Amount mSend)).2 eqn:Hneg;
    [rewrite Accept_negative in Hrun by assumption; discriminate Hrun |].
  split; [exact Hneg |].
  rewrite Accept_scan in Hrun by assumption.
  destruct (chargeTimes _ _) as [g' | v]; [| discriminate Hrun].
  simpl in Hrun. injection Hrun as Hafter <-. simpl.
  assert (Hok : AllowList a = [] \/ In (ToAddress mSend) (AllowList a)).
  { destruct (AllowList a) as [|x l] eqn:El; [now left | right].
    rewrite <- El in *. apply listed_In.
    destruct (listed (ToAddress mSend) (AllowList a)) eqn:Hl; [reflexivity |].
    unfold afterScan in Hafter. rewrite Hl, El in Hafter. discriminate Hafter. }
  split; [exact Hok |]. split; [reflexivity |].
  rewrite afterScan_permitted in Hafter by assumption. simpl in *.
  destruct (IsZero _); now injection Hafter as <-.
Qed.

(** C3 (residual decision, allow-list carried over).  An accepted message
    is a plain transfer.  If the residual is zero in every denomination, the
    answer is accept-and-delete with no successor record; otherwise it is
    accept-without-delete with a successor whose spend limit is the residual
    (in every denomination the limit less the amount sent) and whose
    allow-list is the allow-list of the record evaluated.  [Accept] is a
    function of its arguments: the record it was given is a value that the
    evaluation cannot change. *)
Theorem Accept_residual_decision a ctx msg resp ctx' :
  Accept a ctx msg = Done (resp, None, ctx') ->
  exists mSend,
    msg = IsMsgSend mSend /\
    let limitLeft := (SafeSub (SpendLimit a) (Amount mSend)).1 in
    (forall d, AmountOf limitLeft d
               = AmountOf (SpendLimit a) d - AmountOf (Amount mSend) d) /\
    ((forall d, AmountOf limitLeft d = 0) ->
       resp = {| authz.Accept := true; authz.Delete := true;
                 authz.Updated := None |}) /\
    (~ (forall d, AmountOf limitLeft d = 0) ->
       resp = {| authz.Accept := true; authz.Delete := false;
                 authz.Updated :=
                   Some {| SpendLimit := limitLeft; AllowList := AllowList a |} |}).
Proof.
  intros Hrun. apply Accept_accepted in Hrun.
  destruct Hrun as (mSend & -> & _ & _ & _ & ->).
  exists mSend. split; [reflexivity |]. cbv zeta.
  split; [intros d; apply AmountOf_SafeSub |].
  split; intros Hres.
  - now rewrite (proj2 (residual_zero_iff a mSend) Hres).
  - destruct (IsZero _) eqn:Hz; [| reflexivity].
    contradict Hres. exact (proj1 (residual_zero_iff a mSend) Hz).
Qed.

Lemma Accept_residual_decision_witness :
  Accept listRecord freshContext (IsMsgSend (send "B" [atom 10]))
  = Done (updateResponse {| SpendLimit := [atom 40]; AllowList := ["B"] |}, None,
          {| gasMeter := {| limit := 1000; consumed := 10 |} |}) /\
  exists mSend,
    IsMsgSend (send "B" [atom 10]) = IsMsgSend mSend /\
    forall d, AmountOf (SafeSub [atom 50] (Amount mSend)).1 d
              = AmountOf [atom 50] d - AmountOf (Amount mSend) d.
Proof.
  split; [reflexivity |].
  destruct (Accept_residual_decision listRecord freshContext
              (IsMsgSend (send "B" [atom 10]))
              (updateResponse {| SpendLimit := [atom 40]; AllowList := ["B"] |})
              {| gasMeter := {| limit := 1000; consumed := 10 |} |} eq_refl)
    as (mSend & Hmsg & Hresidual & _).
  exists mSend. split; [exact Hmsg | exact Hresidual].
Defined.

End ResidualDecision.

(** ** The order of the checks *)

Section ErrorOrder.

Implicit Types (a : SendAuthorization) (ctx : Context) (mSend : MsgSend).

Lemma afterScan_outcome a mSend :
  limitValid a mSend ->
  outcomeOf (afterScan a mSend) = Some (specifiedOutcome a (IsMsgSend mSend)).
Proof.
  unfold limitValid, specifiedOutcome, afterScan. intros Hvalid.
  rewrite overspends_SafeSub, Hvalid.
  destruct (AllowList a) as [|x l]; simpl.
  - destruct (IsZero _); reflexivity.
  - destruct (negb _); [reflexivity |].
    destruct (IsZero _); reflexivity.
Qed.

(** The order of the checks, spelled out: an earlier check that fails
    hides every later one. *)
Lemma specifiedOutcome_order a msg :
  match specifiedOutcome a msg with
  | TypeMismatch => forall mSend, msg <> IsMsgSend mSend
  | InsufficientAuthorization =>
      exists mSend, msg = IsMsgSend mSend /\ ~ limitValid a mSend
  | RecipientNotAuthorized =>
      exists mSend, msg = IsMsgSend mSend /\ limitValid a mSend /\
                    AllowList a <> [] /\ ~ In (ToAddress mSend) (AllowList a)
  | Success =>
      exists mSend, msg = IsMsgSend mSend /\ limitValid a mSend /\
                    (AllowList a = [] \/ In (ToAddress mSend) (AllowList a))
  end.
Proof.
  unfold specifiedOutcome, limitValid. destruct msg as [mSend | typeURL];
    [| intros mSend; discriminate].
  rewrite overspends_SafeSub.
  destruct (SafeSub (SpendLimit a) (Amount mSend)).2 eqn:Hneg.
  { exists mSend. split; [reflexivity | congruence]. }
  destruct (listed (ToAddress mSend) (AllowList a)) eqn:Hl;
    destruct (AllowList a) as [|x l]; simpl; exists mSend;
    (split; [reflexivity |]); (split; [assumption |]).
  - now left.
  - right. exact (proj1 (listed_In _ _) Hl).
  - now left.
  - split; [discriminate |]. intros Hin.
    rewrite (proj2 (listed_In _ (x :: l)) Hin) in Hl. discriminate Hl.
Qed.

(** Whenever [Accept] returns, what it returns is the specified outcome. *)
Lemma Accept_returns_specified a ctx msg resp err ctx' :
  Accept a ctx msg = Done (resp, err, ctx') ->
  outcomeOf (resp, err) = Some (specifiedOutcome a msg).
Proof.
  intros Hrun. destruct msg as [mSend | typeURL].
  - destruct (SafeSub (SpendLimit a) (Amount mSend)).2 eqn:Hneg.
    + rewrite Accept_negative in Hrun by assumption.
      injection Hrun as <- <- _. unfold specifiedOutcome.
      now rewrite overspends_SafeSub, Hneg.
    + rewrite Accept_scan in Hrun by assumption.
      destruct (chargeTimes _ _) as [g' | v]; [| discriminate Hrun].
      simpl in Hrun. injection Hrun as Hafter _.
      rewrite <- Hafter. now apply afterScan_outcome.
  - rewrite Accept_other in Hrun. now injection Hrun as <- <- _.
Qed.

(** With budget for the allow-list scan, [Accept] returns. *)
Lemma Accept_returns a ctx msg :
  budgetFor a ctx ->
  exists resp err ctx', Accept a ctx msg = Done (resp, err, ctx').
Proof.
  intros Hbudget. destruct msg as [mSend | typeURL].
  - destruct (SafeSub (SpendLimit a) (Amount mSend)).2 eqn:Hneg.
    + rewrite Accept_negative by assumption. eauto.
    + rewrite Accept_within by assumption.
      destruct (afterScan a mSend) as [resp err]. eauto.
  - rewrite Accept_other. eauto.
Qed.

(** Without that budget, a scan that has to go past it panics. *)
Lemma Accept_out_of_gas a ctx mSend :
  limitValid a mSend ->
  consumed (gasMeter ctx) <= limit (gasMeter ctx) ->
  limit (gasMeter ctx)
    < consumed (gasMeter ctx)
      + gasCostPerIteration * Z.of_nat (scanned (ToAddress mSend) (AllowList a)) ->
  Accept a ctx (IsMsgSend mSend) = Panic (ErrorOutOfGas "send authorization").
Proof.
  intros Hvalid Hle Hlt. rewrite Accept_scan by assumption.
  now rewrite chargeTimes_beyond.
Qed.

(** C4 (order of the checks, exclusive outcomes).  With budget for the
    allow-list scan, [Accept] returns; and whatever [Accept] returns stands
    for exactly one of the four outcomes -- the one the checks yield when
    taken in the order type check, limit check, allow-list check, success.
    The error returned is never one of the two errors of [ValidateBasic]
    (invalid coins, duplicate entry). *)
Theorem Accept_error_order a ctx msg :
  (budgetFor a ctx ->
   exists resp err ctx', Accept a ctx msg = Done (resp, err, ctx')) /\
  (forall resp err ctx',
     Accept a ctx msg = Done (resp, err, ctx') ->
     outcomeOf (resp, err) = Some (specifiedOutcome a msg) /\
     forall e, err = Some e ->
               cause e <> ErrInvalidCoins /\ cause e <> ErrDuplicateEntry).
Proof.
  split; [apply Accept_returns |].
  intros resp err ctx' Hrun.
  pose proof (Accept_returns_specified a ctx msg resp err ctx' Hrun) as Hout.
  split; [exact Hout |].
  intros e ->. unfold outcomeOf in Hout. simpl in Hout.
  destruct (cause e); split; congruence.
Qed.

Lemma Accept_error_order_witness :
  budgetFor listRecord freshContext /\
  exists resp err ctx',
    Accept listRecord freshContext (IsMsgSend (send "C" [atom 10]))
    = Done (resp, err, ctx') /\
    outcomeOf (resp, err) = Some RecipientNotAuthorized.
Proof.
  assert (Hbudget : budgetFor listRecord freshContext).
  { unfold budgetFor, gasCostPerIteration. simpl. lia. }
  split; [exact Hbudget |].
  destruct (Accept_error_order listRecord freshContext
              (IsMsgSend (send "C" [atom 10]))) as [Hreturns Hspecified].
  destruct (Hreturns Hbudget) as (resp & err & ctx' & Hrun).
  exists resp, err, ctx'. split; [exact Hrun |].
  exact (proj1 (Hspecified resp err ctx' Hrun)).
Defined.

End ErrorOrder.

(** ** Metering of the allow-list scan *)

Section MeteringFidelity.

Implicit Types (a : SendAuthorization) (ctx : Context) (mSend : MsgSend).

Lemma meterAfter_scan a ctx mSend :
  limitValid a mSend ->
  meterAfter (Accept a ctx (IsMsgSend mSend)) =
  chargeTimes (scanned (ToAddress mSend) (AllowList a)) (gasMeter ctx).
Proof.
  intros Hvalid. rewrite Accept_scan by assumption. unfold meterAfter.
  destruct (chargeTimes _ _) as [g' | v]; reflexivity.
Qed.

(** C5 (metering fidelity).  For a limit-valid transfer the effect of
    [Accept] on the gas meter is that of exactly [k] successive charges of
    the per-entry cost when the recipient is not among the [k] entries of
    the allow-list, and of exactly [i + 1] charges when the recipient first
    occurs at index [i] (position [i + 1] counting from one): the scan
    goes on after a mismatch and stops at the first match.  [n] charges
    within the budget raise the gas consumed by [n] times the cost of ten.
    Nothing is charged when the allow-list is empty, when the message is not
    a plain transfer, or when the limit check fails. *)
Theorem Accept_metering_fidelity a ctx :
  (forall mSend,
     limitValid a mSend ->
     ~ In (ToAddress mSend) (AllowList a) ->
     meterAfter (Accept a ctx (IsMsgSend mSend))
     = chargeTimes (length (AllowList a)) (gasMeter ctx)) /\
  (forall mSend (i : nat),
     limitValid a mSend ->
     AllowList a !! i = Some (ToAddress mSend) ->
     ~ In (ToAddress mSend) (take i (AllowList a)) ->
     meterAfter (Accept a ctx (IsMsgSend mSend))
     = chargeTimes (S i) (gasMeter ctx)) /\
  (forall (n : nat) g,
     consumed g + 10 * Z.of_nat n <= limit g ->
     chargeTimes n g = Done {| limit := limit g; consumed := consumed g + 10 * Z.of_nat n |}) /\
  (forall mSend,
     AllowList a = [] ->
     meterAfter (Accept a ctx (IsMsgSend mSend)) = Done (gasMeter ctx)) /\
  (forall typeURL,
     meterAfter (Accept a ctx (OtherMsg typeURL)) = Done (gasMeter ctx)) /\
  (forall mSend,
     ~ limitValid a mSend ->
     meterAfter (Accept a ctx (IsMsgSend mSend)) = Done (gasMeter ctx)).
Proof.
  split; [| split; [| split; [| split; [| split]]]].
  - intros mSend Hvalid Hn.
    now rewrite meterAfter_scan, scanned_absent.
  - intros mSend i Hvalid Hi Hn.
    now rewrite meterAfter_scan, (scanned_first _ _ i).
  - intros n g Hle. now apply chargeTimes_within.
  - intros mSend Hnil.
    destruct (SafeSub (SpendLimit a) (Amount mSend)).2 eqn:Hneg.
    + now rewrite Accept_negative.
    + rewrite meterAfter_scan by assumption. now rewrite Hnil.
  - intros typeURL. reflexivity.
  - intros mSend Hinvalid. unfold limitValid in Hinvalid.
    apply not_false_iff_true in Hinvalid. now rewrite Accept_negative.
Qed.

Lemma Accept_metering_fidelity_witness :
  meterAfter (Accept listRecord freshContext (IsMsgSend (send "C" [atom 10])))
  = Done {| limit := 1000; consumed := 10 |} /\
  meterAfter (Accept listRecord freshContext (IsMsgSend (send "B" [atom 10])))
  = Done {| limit := 1000; consumed := 10 |} /\
  meterAfter (Accept openRecord freshContext (IsMsgSend (send "C" [atom 10])))
  = Done {| limit := 1000; consumed := 0 |} /\
  meterAfter (Accept listRecord freshContext (IsMsgSend (send "B" [atom 60])))
  = Done {| limit := 1000; consumed := 0 |}.
Proof.
  pose proof (Accept_metering_fidelity listRecord freshContext)
    as (Habsent & Hfirst & _ & _ & _ & Hinvalid).
  pose proof (Accept_metering_fidelity openRecord freshContext)
    as (_ & _ & _ & Hempty & _ & _).
  split; [| split; [| split]].
  - apply (Habsent (send "C" [atom 10])).
    + reflexivity.
    + simpl. intros [H | []]. discriminate H.
  - apply (Hfirst (send "B" [atom 10]) 0%nat).
    + reflexivity.
    + reflexivity.
    + simpl. intros [].
  - apply (Hempty (send "C" [atom 10])). reflexivity.
  - apply (Hinvalid (send "B" [atom 60])). vm_compute. discriminate.
Defined.

End MeteringFidelity.

(** ** Validation *)

Section Validation.

Implicit Types (a : SendAuthorization) (found : gmap string bool).

Lemma unseen_insert found (x entry : string) :
  unseen (<[x := true]> found) entry <-> x <> entry /\ unseen found entry.
Proof.
  unfold unseen. destruct (decide (x = entry)) as [-> | Hne].
  - rewrite lookup_insert_eq. simpl. split; [discriminate | tauto].
  - rewrite lookup_insert_ne by assumption. tauto.
Qed.

(** The scan passes exactly the lists that hold no entry twice and no
    entry already in the table; any other list is answered with the
    duplicate error. *)
Lemma scanDuplicates_None found allowList :
  scanDuplicates found allowList = None <->
  List.NoDup allowList /\ Forall (unseen found) allowList.
Proof.
  revert found. induction allowList as [|x l IH]; intros found; simpl.
  - split; [intros _; split; constructor | reflexivity].
  - destruct (default false (found !! x)) eqn:Hx.
    + split; [discriminate |]. intros [_ Hall].
      apply Forall_cons in Hall. destruct Hall as [Hux _].
      unfold unseen in Hux. congruence.
    + rewrite IH, List.NoDup_cons_iff, Forall_cons, !Forall_forall.
      setoid_rewrite unseen_insert. setoid_rewrite list_elem_of_In.
      split.
      * intros (Hnd & Hall). repeat split; try assumption.
        -- intros Hin. now destruct (Hall x Hin).
        -- intros y Hy. now apply Hall.
      * intros ((Hnin & Hnd) & _ & Hall). split; [assumption |].
        intros y Hy. split; [| now apply Hall].
        now intros ->.
Qed.

Lemma scanDuplicates_result found allowList :
  scanDuplicates found allowList = None \/
  scanDuplicates found allowList = Some (Bare ErrDuplicateEntry).
Proof.
  revert found. induction allowList as [|x l IH]; intros found; simpl;
    [now left |].
  destruct (default false (found !! x)); [now right | apply IH].
Qed.

(** The scan answers at the first entry that was seen before: nothing
    behind it has any influence. *)
Lemma scanDuplicates_first found (front : list string) (x : string) back :
  In x front ->
  scanDuplicates found (front ++ x :: back) = Some (Bare ErrDuplicateEntry).
Proof.
  intros Hin.
  destruct (scanDuplicates_result found (front ++ x :: back)) as [Hnone | Hdup];
    [| exact Hdup].
  apply scanDuplicates_None in Hnone. destruct Hnone as [Hnd _].
  apply List.NoDup_remove_2 in Hnd. exfalso. apply Hnd.
  apply in_app_iff. now left.
Qed.

Lemma scanDuplicates_empty allowList :
  scanDuplicates ∅ allowList = None <-> List.NoDup allowList.
Proof.
  rewrite scanDuplicates_None. split; [tauto |]. intros Hnd. split; [assumption |].
  apply Forall_forall. intros x _. unfold unseen. now rewrite lookup_empty.
Qed.

Lemma IsAllPositive_iff coins :
  IsAllPositive coins = true <-> coins <> [] /\ allPositive coins.
Proof.
  unfold IsAllPositive, allPositive. destruct coins as [|c rest].
  - split; [discriminate | intros [H _]; congruence].
  - rewrite forallb_forall, Forall_forall. split.
    + intros Hall. split; [discriminate |]. intros x Hx.
      apply list_elem_of_In, Hall in Hx. now apply Z.ltb_lt.
    + intros [_ Hall] x Hx. apply Z.ltb_lt, Hall. now apply list_elem_of_In.
Qed.

Lemma ValidateBasic_None_iff a :
  ValidateBasic a = None <->
  SpendLimit a <> [] /\ allPositive (SpendLimit a) /\ List.NoDup (AllowList a).
Proof.
  unfold ValidateBasic.
  destruct (length (SpendLimit a) =? 0)%nat eqn:Hlen.
  { apply length_zero_nil in Hlen. split; [discriminate | tauto]. }
  assert (Hne : SpendLimit a <> []).
  { intros Hnil. apply length_zero_nil in Hnil. congruence. }
  destruct (IsAllPositive (SpendLimit a)) eqn:Hpos; simpl.
  - rewrite scanDuplicates_empty. apply IsAllPositive_iff in Hpos. tauto.
  - split; [discriminate |]. intros (_ & Hall & _).
    assert (IsAllPositive (SpendLimit a) = true)
      by (apply IsAllPositive_iff; tauto).
    congruence.
Qed.

(** C6 (validating a record).  [ValidateBasic] fails with the invalid-coins error
    ([InvalidLimit]) when the spend limit is empty or holds an amount that
    is not strictly positive; otherwise it fails with the duplicate-entry
    error when the allow-list holds an identifier twice -- the single pass
    over the list answers as soon as it meets an entry its table of seen
    entries already holds; and it returns no error exactly when the spend
    limit is non-empty, all its amounts are strictly positive and the
    entries of the allow-list are pairwise distinct. *)
Theorem ValidateBasic_validation a :
  (SpendLimit a = [] \/ Exists (fun c => coin.Amount c <= 0) (SpendLimit a) ->
   exists description,
     ValidateBasic a = Some (Wrap ErrInvalidCoins description)) /\
  (SpendLimit a <> [] -> allPositive (SpendLimit a) ->
   ~ List.NoDup (AllowList a) ->
   ValidateBasic a = Some (Bare ErrDuplicateEntry)) /\
  (SpendLimit a <> [] -> allPositive (SpendLimit a) ->
   forall front x back,
     AllowList a = (front ++ x :: back)%list -> In x front ->
     scanDuplicates ∅ (front ++ x :: back) = scanDuplicates ∅ (front ++ [x]) /\
     ValidateBasic a = Some (Bare ErrDuplicateEntry)) /\
  (ValidateBasic a = None <->
   SpendLimit a <> [] /\ allPositive (SpendLimit a) /\ List.NoDup (AllowList a)).
Proof.
  unfold ValidateBasic.
  destruct (length (SpendLimit a) =? 0)%nat eqn:Hlen.
  { apply length_zero_nil in Hlen.
    split; [intros _; eauto |]. split; [congruence |]. split; [congruence |].
    split; [discriminate | tauto]. }
  assert (Hne : SpendLimit a <> []).
  { intros Hnil. apply length_zero_nil in Hnil. congruence. }
  destruct (IsAllPositive (SpendLimit a)) eqn:Hpos; simpl.
  - apply IsAllPositive_iff in Hpos. destruct Hpos as [_ Hpos].
    split; [| split; [| split]].
    + intros [Hnil | Hex]; [contradiction |].
      apply Exists_exists in Hex. destruct Hex as [c [Hc Hle]].
      unfold allPositive in Hpos. rewrite Forall_forall in Hpos.
      specialize (Hpos c Hc). lia.
    + intros _ _ Hdup.
      destruct (scanDuplicates_result ∅ (AllowList a)) as [Hnone | Hsome];
        [| exact Hsome].
      apply scanDuplicates_empty in Hnone. contradiction.
    + intros _ _ front x back -> Hin.
      rewrite !scanDuplicates_first by assumption. split; reflexivity.
    + rewrite scanDuplicates_empty. tauto.
  - assert (Hnot : ~ allPositive (SpendLimit a)).
    { intros Hall. assert (IsAllPositive (SpendLimit a) = true)
        by (apply IsAllPositive_iff; tauto). congruence. }
    split; [intros _; eauto |]. split; [tauto |]. split; [tauto |].
    split; [discriminate | tauto].
Qed.

Lemma ValidateBasic_validation_witness :
  ValidateBasic {| SpendLimit := []; AllowList := [] |}
  = Some (Wrap ErrInvalidCoins "spend limit cannot be nil") /\
  ValidateBasic {| SpendLimit := [atom 0]; AllowList := [] |}
  = Some (Wrap ErrInvalidCoins "spend limit must be positive") /\
  ValidateBasic {| SpendLimit := [atom 50]; AllowList := ["X"; "X"] |}
  = Some (Bare ErrDuplicateEntry) /\
  ValidateBasic listRecord = None.
Proof.
  split; [| split; [| split]].
  - destruct (proj1 (ValidateBasic_validation {| SpendLimit := []; AllowList := [] |}))
      as [description Hfail]; [now left |].
    reflexivity.
  - destruct (proj1 (ValidateBasic_validation {| SpendLimit := [atom 0]; AllowList := [] |}))
      as [description Hfail]; [right; left; simpl; lia |].
    reflexivity.
  - apply (proj1 (proj2 (ValidateBasic_validation
             {| SpendLimit := [atom 50]; AllowList := ["X"; "X"] |}))).
    + discriminate.
    + repeat constructor.
    + intros Hnd. apply List.NoDup_cons_iff in Hnd. destruct Hnd as [Hx _].
      apply Hx. now left.
  - apply (proj2 (proj2 (proj2 (ValidateBasic_validation listRecord)))).
    split; [discriminate |]. split; [repeat constructor |].
    apply List.NoDup_cons_iff. split; [| constructor].
    intros [].
Defined.

End Validation.

(** ** Monotonicity along accepted transfers *)

Section Monotonicity.

Implicit Types (a : SendAuthorization) (ctx : Context) (mSend : MsgSend).

Lemma successor_spend_limit a ctx mSend a1 ctx' :
  Accept a ctx (IsMsgSend mSend) = Done (updateResponse a1, None, ctx') ->
  a1 = {| SpendLimit := (SafeSub (SpendLimit a) (Amount mSend)).1;
          AllowList := AllowList a |} /\
  IsZero (SafeSub (SpendLimit a) (Amount mSend)).1 = false /\
  limitValid a mSend.
Proof.
  intros Hrun. apply Accept_accepted in Hrun.
  destruct Hrun as (m & Hm & Hvalid & _ & _ & Hresp).
  injection Hm as <-. cbv zeta in Hresp.
  destruct (IsZero _); [discriminate Hresp |].
  injection Hresp as ->. tauto.
Qed.

Lemma step_nonincreasing a ctx mSend a1 ctx' :
  Accept a ctx (IsMsgSend mSend) = Done (updateResponse a1, None, ctx') ->
  nonNegative (Amount mSend) ->
  forall d, AmountOf (SpendLimit a1) d <= AmountOf (SpendLimit a) d.
Proof.
  intros Hrun Hnn d. apply successor_spend_limit in Hrun.
  destruct Hrun as (-> & _ & _). cbn [SpendLimit]. rewrite AmountOf_SafeSub.
  pose proof (AmountOf_nonNegative (Amount mSend) d Hnn). lia.
Qed.

Lemma run_split a (front back : list MsgSend) a2 :
  acceptedRun a (front ++ back) a2 ->
  exists a1, acceptedRun a front a1 /\ acceptedRun a1 back a2.
Proof.
  revert a. induction front as [|m front IH]; intros a Hrun; simpl in Hrun.
  - exists a. split; [constructor | assumption].
  - inversion Hrun as [| ? ctx ? ctx' a1 ? ? Hstep Hrest]; subst.
    destruct (IH a1 Hrest) as (mid & Hfront & Hback).
    exists mid. split; [| assumption].
    now apply (run_step a ctx m ctx' a1).
Qed.

Lemma run_nonincreasing a (transfers : list MsgSend) a2 :
  acceptedRun a transfers a2 ->
  Forall (fun mSend => nonNegative (Amount mSend)) transfers ->
  forall d, AmountOf (SpendLimit a2) d <= AmountOf (SpendLimit a) d.
Proof.
  induction 1 as [a | a ctx m ctx' a1 rest a2 Hstep Hrest IH]; intros Hnn d.
  - lia.
  - apply Forall_cons in Hnn. destruct Hnn as [Hm Hnn].
    pose proof (step_nonincreasing a ctx m a1 ctx' Hstep Hm d).
    specialize (IH Hnn d). lia.
Qed.

(** C7 (Accept_monotonicity).  Along any sequence of accepted transfers, each
    asking for non-negative amounts and each evaluated against the record
    its predecessor left behind, the spend limit never goes up in any
    denomination: at whatever point the sequence is cut, the record reached
    there holds at most what the first record held, and the last record at
    most what that one holds.  An acceptance carries the delete signal
    exactly when the residual is zero in every denomination. *)
Theorem Accept_monotonicity a :
  (forall (front back : list MsgSend) a2,
     acceptedRun a (front ++ back) a2 ->
     Forall (fun mSend => nonNegative (Amount mSend)) (front ++ back) ->
     exists a1,
       acceptedRun a front a1 /\ acceptedRun a1 back a2 /\
       forall d,
         AmountOf (SpendLimit a2) d <= AmountOf (SpendLimit a1) d /\
         AmountOf (SpendLimit a1) d <= AmountOf (SpendLimit a) d) /\
  (forall ctx msg resp ctx',
     Accept a ctx msg = Done (resp, None, ctx') ->
     exists mSend,
       msg = IsMsgSend mSend /\
       (authz.Delete resp = true <->
        forall d, AmountOf (SpendLimit a) d - AmountOf (Amount mSend) d = 0)).
Proof.
  split.
  - intros front back a2 Hrun Hnn.
    apply Forall_app in Hnn. destruct Hnn as [Hfront Hback].
    destruct (run_split a front back a2 Hrun) as (a1 & Hrun1 & Hrun2).
    exists a1. split; [assumption |]. split; [assumption |].
    intros d. split.
    + now apply (run_nonincreasing a1 back a2).
    + now apply (run_nonincreasing a front a1).
  - intros ctx msg resp ctx' Hrun. apply Accept_accepted in Hrun.
    destruct Hrun as (mSend & -> & _ & _ & _ & ->).
    exists mSend. split; [reflexivity |]. cbv zeta.
    rewrite <- SafeSub_IsZero_iff.
    destruct (IsZero _); simpl; split; congruence.
Qed.

Lemma Accept_monotonicity_witness :
  exists a1,
    acceptedRun openRecord [send "Z" [atom 40]] a1 /\
    acceptedRun a1 [send "Y" [atom 25]]
      {| SpendLimit := [atom 35]; AllowList := [] |} /\
    forall d,
      AmountOf [atom 35] d <= AmountOf (SpendLimit a1) d /\
      AmountOf (SpendLimit a1) d <= AmountOf [atom 100] d.
Proof.
  apply (proj1 (Accept_monotonicity openRecord)
           [send "Z" [atom 40]] [send "Y" [atom 25]]
           {| SpendLimit := [atom 35]; AllowList := [] |}).
  - apply (run_step openRecord freshContext (send "Z" [atom 40]) freshContext
             {| SpendLimit := [atom 60]; AllowList := [] |}); [reflexivity |].
    apply (run_step _ freshContext (send "Y" [atom 25]) freshContext
             {| SpendLimit := [atom 35]; AllowList := [] |}); [reflexivity |].
    apply run_done.
  - repeat constructor; simpl; lia.
Defined.

End Monotonicity.

(** ** The scenarios of the specification *)

Section Scenarios.

(** C8 (concrete scenarios).  Against the record with limit 100 atom and no
    allow-list: a transfer of 100 atom is accepted with the delete signal, a
    transfer of 40 atom is accepted with a successor whose limit is 60 atom,
    and a transfer of 150 atom is rejected as insufficient, with nothing
    updated.  Against the record with limit 50 atom and allow-list [B],
    with budget for the one entry to scan: 10 atom to [B] are accepted with
    a successor whose limit is 40 atom, and 10 atom to [C] are rejected as
    unauthorized. *)
Theorem Accept_concrete_scenarios (ctx : Context) (from : string) :
  let transfer toAddr amount :=
    IsMsgSend {| FromAddress := from; ToAddress := toAddr; Amount := amount |} in
  Accept openRecord ctx (transfer "Z" [atom 100])
  = Done ({| authz.Accept := true; authz.Delete := true; authz.Updated := None |},
          None, ctx) /\
  Accept openRecord ctx (transfer "Z" [atom 40])
  = Done ({| authz.Accept := true; authz.Delete := false;
             authz.Updated := Some {| SpendLimit := [atom 60]; AllowList := [] |} |},
          None, ctx) /\
  Accept openRecord ctx (transfer "Z" [atom 150])
  = Done (authz.zero, Some insufficient, ctx) /\
  (consumed (gasMeter ctx) + 10 <= limit (gasMeter ctx) ->
   Accept listRecord ctx (transfer "B" [atom 10])
   = Done ({| authz.Accept := true; authz.Delete := false;
              authz.Updated := Some {| SpendLimit := [atom 40]; AllowList := ["B"] |} |},
           None,
           {| gasMeter := {| limit := limit (gasMeter ctx);
                             consumed := consumed (gasMeter ctx) + 10 |} |}) /\
   Accept listRecord ctx (transfer "C" [atom 10])
   = Done (authz.zero, Some (unauthorized "C"),
           {| gasMeter := {| limit := limit (gasMeter ctx);
                             consumed := consumed (gasMeter ctx) + 10 |} |})).
Proof.
  destruct ctx as [g]. cbv zeta.
  split; [reflexivity |]. split; [reflexivity |]. split; [reflexivity |].
  intros Hbudget. simpl in Hbudget.
  split; (rewrite Accept_within;
          [ | reflexivity | unfold budgetFor, gasCostPerIteration; simpl; lia ]).
  - unfold charged, gasCostPerIteration. simpl.
    replace (consumed g + 10 * 1) with (consumed g + 10) by lia. reflexivity.
  - unfold charged, gasCostPerIteration. simpl.
    replace (consumed g + 10 * 1) with (consumed g + 10) by lia. reflexivity.
Qed.

Lemma Accept_concrete_scenarios_witness :
  Accept listRecord freshContext (IsMsgSend (send "B" [atom 10]))
  = Done (updateResponse {| SpendLimit := [atom 40]; AllowList := ["B"] |}, None,
          {| gasMeter := {| limit := 1000; consumed := 10 |} |}) /\
  Accept listRecord freshContext (IsMsgSend (send "C" [atom 10]))
  = Done (authz.zero, Some (unauthorized "C"),
          {| gasMeter := {| limit := 1000; consumed := 10 |} |}).
Proof.
  apply (proj2 (proj2 (proj2 (Accept_concrete_scenarios freshContext "granter")))).
  simpl. lia.
Defined.

End Scenarios.

(** ** Validity of the successor record *)

Section SuccessorValidity.

Implicit Types (a : SendAuthorization) (ctx : Context) (mSend : MsgSend).

Lemma residual_positive coins coinsB :
  (SafeSub coins coinsB).2 = false -> allPositive (SafeSub coins coinsB).1.
Proof.
  intros Hnn. apply Forall_forall. intros c Hc. apply list_elem_of_In in Hc.
  destruct (SafeSub_In coins coinsB c Hc) as [_ Hnz].
  rewrite SafeSub_flag in Hnn. unfold IsAnyNegative in Hnn.
  assert (Hge : (coin.Amount c <? 0) = false).
  { destruct (coin.Amount c <? 0) eqn:E; [| reflexivity].
    assert (existsb (fun c => coin.Amount c <? 0) (SafeSub coins coinsB).1 = true)
      by (apply existsb_exists; eauto).
    congruence. }
  apply Z.ltb_ge in Hge. lia.
Qed.

Lemma residual_dropped coins coinsB d :
  AmountOf coins d = AmountOf coinsB d ->
  ~ In d (denoms (SafeSub coins coinsB).1).
Proof.
  intros Heq Hin. unfold denoms in Hin. apply in_map_iff in Hin.
  destruct Hin as [c [<- Hc]]. apply SafeSub_In in Hc. lia.
Qed.

(** C9 (the successor record is valid).  When a record that passes
    [ValidateBasic] accepts a transfer without the delete signal, the
    successor record passes [ValidateBasic] too: its spend limit is
    non-empty and holds strictly positive amounts only -- a denomination
    whose residual is zero has no entry in it -- and its allow-list is the
    duplicate-free allow-list of the record evaluated. *)
Theorem Accept_successor_validity a ctx msg resp ctx' :
  ValidateBasic a = None ->
  Accept a ctx msg = Done (resp, None, ctx') ->
  authz.Delete resp = false ->
  exists mSend a1,
    msg = IsMsgSend mSend /\
    authz.Updated resp = Some a1 /\
    ValidateBasic a1 = None /\
    SpendLimit a1 <> [] /\
    allPositive (SpendLimit a1) /\
    (forall d, AmountOf (SpendLimit a) d = AmountOf (Amount mSend) d ->
               ~ In d (denoms (SpendLimit a1))) /\
    AllowList a1 = AllowList a /\
    List.NoDup (AllowList a1).
Proof.
  intros Hvalid Hrun Hkeep.
  apply ValidateBasic_None_iff in Hvalid. destruct Hvalid as (_ & _ & Hnd).
  apply Accept_accepted in Hrun.
  destruct Hrun as (mSend & -> & Hlimit & _ & _ & ->). cbv zeta in *.
  destruct (IsZero _) eqn:Hz; [discriminate Hkeep |].
  exists mSend. eexists. split; [reflexivity |]. split; [reflexivity |].
  assert (Hne : (SafeSub (SpendLimit a) (Amount mSend)).1 <> []).
  { intros Hnil. rewrite Hnil in Hz. discriminate Hz. }
  pose proof (residual_positive _ _ Hlimit) as Hpos.
  split; [apply ValidateBasic_None_iff; cbn [SpendLimit AllowList]; tauto |].
  cbn [SpendLimit AllowList].
  split; [exact Hne |]. split; [exact Hpos |].
  split; [intros d; apply residual_dropped |].
  split; [reflexivity | exact Hnd].
Qed.

Lemma Accept_successor_validity_witness :
  exists mSend a1,
    IsMsgSend (send "B" [atom 10; NewCoin "stake" 7]) = IsMsgSend mSend /\
    Some {| SpendLimit := [atom 40]; AllowList := ["B"] |} = Some a1 /\
    ValidateBasic a1 = None /\
    SpendLimit a1 <> [] /\
    allPositive (SpendLimit a1) /\
    (forall d, AmountOf [atom 50; NewCoin "stake" 7] d = AmountOf (Amount mSend) d ->
               ~ In d (denoms (SpendLimit a1))) /\
    AllowList a1 = ["B"] /\
    List.NoDup (AllowList a1).
Proof.
  apply (Accept_successor_validity
           {| SpendLimit := [atom 50; NewCoin "stake" 7]; AllowList := ["B"] |}
           freshContext
           (IsMsgSend (send "B" [atom 10; NewCoin "stake" 7]))
           (updateResponse {| SpendLimit := [atom 40]; AllowList := ["B"] |})
           {| gasMeter := {| limit := 1000; consumed := 10 |} |});
    reflexivity.
Defined.

End SuccessorValidity.

(** ** Construction *)

Section Construction.

Context `{codec : Codec}.

Implicit Types (allowed : list AccAddress) (allowedAddrs : list string).

Lemma encodings_length allowed : length (encodings allowed) = length allowed.
Proof. unfold encodings. apply length_map. Qed.


(** The loop fills the slots from [i] on, in order, and leaves the slots
    before [i] as they are. *)
Lemma encodeInto_filled (i : nat) allowed allowedAddrs :
  Forall encodes allowed ->
  length allowedAddrs = (i + length allowed)%nat ->
  encodeInto i allowed allowedAddrs
  = Done (take i allowedAddrs ++ encodings allowed)%list.
Proof.
  revert i allowedAddrs.
  induction allowed as [|addr rest IH]; intros i allowedAddrs Hall Hlen; simpl.
  - simpl in Hlen. rewrite app_nil_r, take_ge by lia. reflexivity.
  - apply Forall_cons in Hall. destruct Hall as [Haddr Hrest].
    unfold encodes in Haddr.
    destruct (BytesToString addr) as [addrStr err]. simpl in *. subst err.
    rewrite IH; [| assumption | rewrite length_insert; lia].
    f_equal.
    rewrite (take_S_r _ _ addrStr) by (apply list_lookup_insert_eq; lia).
    rewrite take_insert_ge by lia. now rewrite <- app_assoc.
Qed.


Lemma toBech32Addresses_encodings allowed :
  Forall encodes allowed -> toBech32Addresses allowed = Done (encodings allowed).
Proof.
  intros Hall. unfold toBech32Addresses.
  destruct allowed as [|addr rest]; [reflexivity |].
  change (length (addr :: rest) =? 0)%nat with false. cbv iota.
  rewrite encodeInto_filled; [reflexivity | assumption |].
  now rewrite length_replicate.
Qed.


End Construction.


(** * Further properties of the send authorization *)

(** ** The shape of what [Accept] returns *)

Section ResponseShape.

Implicit Types (a : SendAuthorization) (ctx : Context) (mSend : MsgSend).

Lemma chargeTimes_short (n : nat) g :
  (1 <= n)%nat ->
  limit g < consumed g + gasCostPerIteration * Z.of_nat n ->
  chargeTimes n g = Panic (ErrorOutOfGas "send authorization").
Proof.
  unfold gasCostPerIteration.
  revert g. induction n as [|n IH]; intros g Hn Hlt; [lia |].
  simpl chargeTimes. unfold ConsumeGas, gasCostPerIteration.
  destruct (Z.ltb_spec (limit g) (consumed g + 10)) as [Hlt' | Hge]; [reflexivity |].
  simpl. apply IH; simpl; lia.
Qed.

Lemma chargeTimes_Done_iff (n : nat) g g' :
  chargeTimes n g = Done g' <->
  g' = charged n g /\
  (n = O \/ consumed g + gasCostPerIteration * Z.of_nat n <= limit g).
Proof.
  split.
  - intros Hrun. destruct n as [|n].
    + simpl in Hrun. injection Hrun as <-. rewrite charged_none. tauto.
    + destruct (Z_le_gt_dec (consumed g + gasCostPerIteration * Z.of_nat (S n))
                  (limit g)) as [Hle | Hgt].
      * rewrite chargeTimes_within in Hrun by assumption.
        injection Hrun as <-. tauto.
      * rewrite chargeTimes_short in Hrun by lia. discriminate Hrun.
  - intros [-> [-> | Hle]].
    + now rewrite charged_none.
    + now apply chargeTimes_within.
Qed.

(** Whenever [Accept] returns, it returns [decision]. *)
Lemma Accept_returns_decision a ctx msg resp err ctx' :
  Accept a ctx msg = Done (resp, err, ctx') -> (resp, err) = decision a msg.
Proof.
  intros Hrun. unfold decision. destruct msg as [mSend | typeURL].
  - destruct (SafeSub (SpendLimit a) (Amount mSend)).2 eqn:Hneg.
    + rewrite Accept_negative in Hrun by assumption. now injection Hrun as <- <- _.
    + rewrite Accept_scan in Hrun by assumption.
      destruct (chargeTimes _ _) as [g' | v]; [| discriminate Hrun].
      simpl in Hrun. now injection Hrun as <- _.
  - rewrite Accept_other in Hrun. now injection Hrun as <- <- _.
Qed.

Lemma afterScan_shape a mSend :
  afterScan a mSend = (authz.zero, Some (unauthorized (ToAddress mSend))) \/
  afterScan a mSend = (deleteResponse, None) \/
  afterScan a mSend =
    (updateResponse {| SpendLimit := (SafeSub (SpendLimit a) (Amount mSend)).1;
                       AllowList := AllowList a |}, None).
Proof.
  unfold afterScan. destruct (_ && _); [now left |].
  destruct (IsZero _); [right; now left | right; now right].
Qed.

(** X1.  [Accept] returns one of three shapes and no other: an error with
    the zero response (no acceptance, no delete signal, no successor); no
    error with acceptance and the delete signal and no successor; or no
    error with acceptance, no delete signal and a successor that carries
    the allow-list of the record evaluated.  So an error never comes with
    an update, and the delete signal and a successor never come together. *)
Theorem Accept_response_shape a ctx msg resp err ctx' :
  Accept a ctx msg = Done (resp, err, ctx') ->
  (exists e, err = Some e /\ resp = authz.zero) \/
  (err = None /\
   resp = {| authz.Accept := true; authz.Delete := true; authz.Updated := None |}) \/
  (exists a1,
     err = None /\ AllowList a1 = AllowList a /\
     resp = {| authz.Accept := true; authz.Delete := false;
               authz.Updated := Some a1 |}).
Proof.
  intros Hrun. apply Accept_returns_decision in Hrun. unfold decision in Hrun.
  destruct msg as [mSend | typeURL].
  - destruct (SafeSub (SpendLimit a) (Amount mSend)).2.
    + injection Hrun as -> ->. left. eauto.
    + destruct (afterScan_shape a mSend) as [Hs | [Hs | Hs]];
        rewrite Hs in Hrun; injection Hrun as -> ->.
      * left. eauto.
      * right. left. split; reflexivity.
      * right. right.
        exists {| SpendLimit := (SafeSub (SpendLimit a) (Amount mSend)).1;
                  AllowList := AllowList a |}.
        split; [reflexivity |]. split; reflexivity.
  - injection Hrun as -> ->. left. eauto.
Qed.

Lemma Accept_response_shape_witness :
  exists a1,
    AllowList a1 = ["B"] /\
    {| authz.Accept := true; authz.Delete := false;
       authz.Updated := Some {| SpendLimit := [atom 40]; AllowList := ["B"] |} |}
    = {| authz.Accept := true; authz.Delete := false; authz.Updated := Some a1 |}.
Proof.
  destruct (Accept_response_shape listRecord freshContext
              (IsMsgSend (send "B" [atom 10]))
              {| authz.Accept := true; authz.Delete := false;
                 authz.Updated :=
                   Some {| SpendLimit := [atom 40]; AllowList := ["B"] |} |}
              None
              {| gasMeter := {| limit := 1000; consumed := 10 |} |}
              eq_refl)
    as [(e & He & _) | [(_ & Hr) | (a1 & _ & Hl & Hr)]].
  - discriminate He.
  - discriminate Hr.
  - exists a1. split; assumption.
Defined.

End ResponseShape.

(** ** What the scan costs *)

Section GasBounds.

Implicit Types (a : SendAuthorization) (ctx : Context) (mSend : MsgSend).

(** X2.  Whenever [Accept] returns, it has charged the per-entry cost some
    [n] times, with [n] no more than the number of allow-list entries: the
    meter's limit is the one it had, the gas consumed has grown by [n]
    times ten, and if anything was charged the meter is still within its
    limit. *)
Theorem Accept_gas_bounds a ctx msg resp err ctx' :
  Accept a ctx msg = Done (resp, err, ctx') ->
  exists n : nat,
    (n <= length (AllowList a))%nat /\
    limit (gasMeter ctx') = limit (gasMeter ctx) /\
    consumed (gasMeter ctx') = consumed (gasMeter ctx) + 10 * Z.of_nat n /\
    (n <> O -> consumed (gasMeter ctx') <= limit (gasMeter ctx)).
Proof.
  intros Hrun.
  assert (Hnone : ctx' = ctx ->
            exists n : nat,
              (n <= length (AllowList a))%nat /\
              limit (gasMeter ctx') = limit (gasMeter ctx) /\
              consumed (gasMeter ctx') = consumed (gasMeter ctx) + 10 * Z.of_nat n /\
              (n <> O -> consumed (gasMeter ctx') <= limit (gasMeter ctx))).
  { intros ->. exists O.
    split; [lia |]. split; [reflexivity |]. split; [simpl; lia | congruence]. }
  destruct msg as [mSend | typeURL].
  - destruct (SafeSub (SpendLimit a) (Amount mSend)).2 eqn:Hneg.
    + rewrite Accept_negative in Hrun by assumption.
      apply Hnone. now injection Hrun as _ _ <-.
    + rewrite Accept_scan in Hrun by assumption.
      destruct (chargeTimes _ _) as [g' | v] eqn:Hcharge; [| discriminate Hrun].
      simpl in Hrun. injection Hrun as _ <-. simpl.
      apply chargeTimes_Done_iff in Hcharge. destruct Hcharge as [-> Hfit].
      exists (scanned (ToAddress mSend) (AllowList a)).
      split; [apply scanned_le |]. split; [reflexivity |].
      split; [reflexivity |]. intros Hn. simpl.
      unfold gasCostPerIteration in Hfit. destruct Hfit; [contradiction | assumption].
  - rewrite Accept_other in Hrun. apply Hnone. now injection Hrun as _ _ <-.
Qed.

Lemma Accept_gas_bounds_witness :
  exists n : nat,
    (n <= 1)%nat /\
    1000 = 1000 /\
    10 = 0 + 10 * Z.of_nat n /\
    (n <> O -> 10 <= 1000).
Proof.
  apply (Accept_gas_bounds listRecord freshContext
           (IsMsgSend (send "C" [atom 10])) authz.zero
           (Some (unauthorized "C"))
           {| gasMeter := {| limit := 1000; consumed := 10 |} |}).
  reflexivity.
Defined.

End GasBounds.

(** ** The allow-list as a set *)

Section AllowListAsSet.

Implicit Types (a b : SendAuthorization) (ctx : Context) (mSend : MsgSend).

Lemma listed_same_members toAddr (l1 l2 : list string) :
  (forall x, In x l1 <-> In x l2) -> listed toAddr l1 = listed toAddr l2.
Proof.
  intros Hsame. apply eq_true_iff_eq. rewrite !listed_In. apply Hsame.
Qed.

Lemma nonempty_same_members (l1 l2 : list string) :
  (forall x, In x l1 <-> In x l2) ->
  (0 <? length l1)%nat = (0 <? length l2)%nat.
Proof.
  intros Hsame. destruct l1 as [|x1 l1], l2 as [|x2 l2]; try reflexivity.
  - exfalso. apply (proj2 (Hsame x2)). now left.
  - exfalso. apply (proj1 (Hsame x1)). now left.
Qed.

(** X4.  For the decision of [Accept] the allow-list is a set: two
    records with the same spend limit whose allow-lists have the same
    members -- in whatever order, with whatever repetitions -- answer the
    same message with the same error or, if they accept, with the same
    delete signal and the same residual spend limit.  Order and repetition
    show in the gas charged only. *)
Theorem Accept_allow_list_as_set a b ctxa ctxb msg respa erra ctxa' respb errb ctxb' :
  SpendLimit a = SpendLimit b ->
  (forall x, In x (AllowList a) <-> In x (AllowList b)) ->
  Accept a ctxa msg = Done (respa, erra, ctxa') ->
  Accept b ctxb msg = Done (respb, errb, ctxb') ->
  erra = errb /\
  authz.Accept respa = authz.Accept respb /\
  authz.Delete respa = authz.Delete respb /\
  SpendLimit <$> authz.Updated respa = SpendLimit <$> authz.Updated respb.
Proof.
  intros Hlimit Hsame Hruna Hrunb.
  apply Accept_returns_decision in Hruna, Hrunb.
  unfold decision in *. destruct msg as [mSend | typeURL].
  - rewrite <- Hlimit in Hrunb.
    destruct (SafeSub (SpendLimit a) (Amount mSend)).2.
    + injection Hruna as -> ->. injection Hrunb as -> ->. repeat split.
    + unfold afterScan in *. rewrite <- Hlimit in Hrunb.
      rewrite <- (listed_same_members _ _ _ Hsame),
              <- (nonempty_same_members _ _ Hsame) in Hrunb.
      destruct (_ && _).
      * injection Hruna as -> ->. injection Hrunb as -> ->. repeat split.
      * destruct (IsZero _);
          injection Hruna as -> ->; injection Hrunb as -> ->; repeat split.
  - injection Hruna as -> ->. injection Hrunb as -> ->. repeat split.
Qed.

Lemma Accept_allow_list_as_set_witness :
  Some (unauthorized "C") = Some (unauthorized "C") /\
  authz.Accept (authz.zero (Auth := SendAuthorization))
  = authz.Accept (authz.zero (Auth := SendAuthorization)) /\
  authz.Delete (authz.zero (Auth := SendAuthorization))
  = authz.Delete (authz.zero (Auth := SendAuthorization)) /\
  SpendLimit <$> authz.Updated (authz.zero (Auth := SendAuthorization))
  = SpendLimit <$> authz.Updated (authz.zero (Auth := SendAuthorization)).
Proof.
  apply (Accept_allow_list_as_set
           {| SpendLimit := [atom 50]; AllowList := ["A"; "B"] |}
           {| SpendLimit := [atom 50]; AllowList := ["B"; "A"; "B"] |}
           freshContext freshContext (IsMsgSend (send "C" [atom 10]))
           authz.zero (Some (unauthorized "C"))
           {| gasMeter := {| limit := 1000; consumed := 20 |} |}
           authz.zero (Some (unauthorized "C"))
           {| gasMeter := {| limit := 1000; consumed := 30 |} |}).
  - reflexivity.
  - intros x. simpl. tauto.
  - reflexivity.
  - reflexivity.
Defined.

(** X5.  [ValidateBasic] does not depend on the order of the allow-list:
    two records with the same spend limit whose allow-lists are
    permutations of each other get the same answer. *)
Theorem ValidateBasic_permutation a b :
  SpendLimit a = SpendLimit b ->
  Permutation (AllowList a) (AllowList b) ->
  ValidateBasic a = ValidateBasic b.
Proof.
  intros Hlimit Hperm. unfold ValidateBasic. rewrite <- Hlimit.
  destruct (length (SpendLimit a) =? 0)%nat; [reflexivity |].
  destruct (negb _); [reflexivity |].
  destruct (scanDuplicates_result ∅ (AllowList a)) as [Ha | Ha],
           (scanDuplicates_result ∅ (AllowList b)) as [Hb | Hb];
    rewrite Ha, Hb; try reflexivity; exfalso.
  - apply scanDuplicates_empty in Ha.
    apply (Permutation_NoDup Hperm), scanDuplicates_empty in Ha. congruence.
  - apply scanDuplicates_empty in Hb.
    apply (Permutation_NoDup (Permutation_sym Hperm)), scanDuplicates_empty in Hb.
    congruence.
Qed.

Lemma ValidateBasic_permutation_witness :
  ValidateBasic {| SpendLimit := [atom 50]; AllowList := ["A"; "B"; "A"] |}
  = ValidateBasic {| SpendLimit := [atom 50]; AllowList := ["B"; "A"; "A"] |}.
Proof.
  apply ValidateBasic_permutation; [reflexivity |].
  apply perm_swap.
Defined.

End AllowListAsSet.

(** ** Construction, then validation and evaluation *)

Section ConstructionComposed.

Context `{codec : Codec}.

Implicit Types (allowed front back : list AccAddress) (addr : AccAddress).

Lemma encodeInto_Panic_iff (i : nat) allowed (allowedAddrs : list string) v :
  encodeInto i allowed allowedAddrs = Panic v <->
  exists front addr back err,
    allowed = (front ++ addr :: back)%list /\
    Forall encodes front /\
    (BytesToString addr).2 = Some err /\
    v = CodecError err.
Proof.
  split.
  - revert i allowedAddrs.
    induction allowed as [|addr rest IH]; intros i allowedAddrs Hrun; simpl in Hrun;
      [discriminate Hrun |].
    destruct (BytesToString addr) as [addrStr [err |]] eqn:E.
    + injection Hrun as <-. exists [], addr, rest, err.
      rewrite E. repeat split. constructor.
    + apply IH in Hrun. destruct Hrun as (front & bad & back & err & -> & Hfront & Hbad & ->).
      exists (addr :: front), bad, back, err. repeat split; try assumption.
      constructor; [| assumption]. unfold encodes. now rewrite E.
  - intros (front & bad & back & err & -> & Hfront & Hbad & ->).
    revert i allowedAddrs.
    induction Hfront as [|addr front Haddr _ IH]; intros i allowedAddrs; simpl.
    + destruct (BytesToString bad) as [addrStr e]. simpl in Hbad. now subst e.
    + unfold encodes in Haddr.
      destruct (BytesToString addr) as [addrStr e]. simpl in Haddr. subst e.
      apply IH.
Qed.

(** X6.  [toBech32Addresses] panics exactly when some address cannot be
    encoded, and it panics with the error of the first such address: the
    addresses before it were encoded, the ones behind it are not looked
    at.  The empty list never panics. *)
Theorem toBech32Addresses_first_error allowed v :
  toBech32Addresses allowed = Panic v <->
  exists front addr back err,
    allowed = (front ++ addr :: back)%list /\
    Forall encodes front /\
    (BytesToString addr).2 = Some err /\
    v = CodecError err.
Proof.
  unfold toBech32Addresses. destruct allowed as [|addr rest].
  - simpl. split; [discriminate |].
    intros (front & bad & back & err & Heq & _). now destruct front.
  - change (length (addr :: rest) =? 0)%nat with false. cbv iota.
    apply encodeInto_Panic_iff.
Qed.

Lemma ValidateBasic_duplicate_iff (a : SendAuthorization) :
  ValidateBasic a = Some (Bare ErrDuplicateEntry) <->
  SpendLimit a <> [] /\ allPositive (SpendLimit a) /\ ~ List.NoDup (AllowList a).
Proof.
  unfold ValidateBasic.
  destruct (length (SpendLimit a) =? 0)%nat eqn:Hlen.
  { apply length_zero_nil in Hlen. split; [discriminate | tauto]. }
  assert (Hne : SpendLimit a <> []).
  { intros Hnil. apply length_zero_nil in Hnil. congruence. }
  destruct (IsAllPositive (SpendLimit a)) eqn:Hpos; simpl.
  - apply IsAllPositive_iff in Hpos. destruct Hpos as [_ Hpos].
    rewrite <- scanDuplicates_empty.
    destruct (scanDuplicates_result ∅ (AllowList a)) as [H | H]; rewrite H.
    + split; [discriminate | tauto].
    + split; [| reflexivity]. intros _. repeat split; try assumption. discriminate.
  - split; [discriminate |]. intros (_ & Hall & _).
    assert (IsAllPositive (SpendLimit a) = true)
      by (apply IsAllPositive_iff; tauto).
    congruence.
Qed.

(** X7.  A record built by [NewSendAuthorization] from addresses that can
    all be encoded passes [ValidateBasic] exactly when the spend limit is
    non-empty and strictly positive and the text forms of the addresses are
    pairwise distinct.  So an address given twice makes the built record
    fail with the duplicate-entry error (the constructor itself does not
    complain), and distinct addresses under a codec that tells them apart
    make it pass. *)
Theorem NewSendAuthorization_then_ValidateBasic (spendLimit : Coins) allowed :
  Forall encodes allowed ->
  exists a,
    NewSendAuthorization spendLimit allowed = Done a /\
    (ValidateBasic a = None <->
     spendLimit <> [] /\ allPositive spendLimit /\ List.NoDup (encodings allowed)) /\
    (spendLimit <> [] -> allPositive spendLimit -> ~ List.NoDup allowed ->
     ValidateBasic a = Some (Bare ErrDuplicateEntry)) /\
    (spendLimit <> [] -> allPositive spendLimit -> List.NoDup allowed ->
     (forall x y, In x allowed -> In y allowed ->
                  (BytesToString x).1 = (BytesToString y).1 -> x = y) ->
     ValidateBasic a = None).
Proof.
  intros Hall.
  exists {| SpendLimit := spendLimit; AllowList := encodings allowed |}.
  split.
  { unfold NewSendAuthorization. now rewrite toBech32Addresses_encodings. }
  split; [apply ValidateBasic_None_iff |].
  split.
  - intros Hne Hpos Hdup. apply ValidateBasic_duplicate_iff.
    cbn [SpendLimit AllowList]. repeat split; try assumption.
    intros Hnd. apply Hdup. unfold encodings in Hnd.
    now apply NoDup_map_inv in Hnd.
  - intros Hne Hpos Hnd Hinj. apply ValidateBasic_None_iff.
    cbn [SpendLimit AllowList]. repeat split; try assumption.
    unfold encodings. apply NoDup_map_NoDup_ForallPairs; [| assumption].
    intros x y Hx Hy. now apply Hinj.
Qed.

(** X8.  Against a record built by [NewSendAuthorization] from a non-empty
    list of addresses that can all be encoded, a transfer within the limit
    (and a budget that covers the scan) is accepted when its recipient is
    the text form of one of those addresses, and rejected as unauthorized
    when it is the text form of none. *)
Theorem NewSendAuthorization_then_Accept (spendLimit : Coins) allowed ctx mSend :
  allowed <> [] ->
  Forall encodes allowed ->
  (SafeSub spendLimit (Amount mSend)).2 = false ->
  consumed (gasMeter ctx) + 10 * Z.of_nat (length allowed) <= limit (gasMeter ctx) ->
  exists a,
    NewSendAuthorization spendLimit allowed = Done a /\
    ((exists addr, In addr allowed /\ (BytesToString addr).1 = ToAddress mSend) ->
     exists resp ctx',
       Accept a ctx (IsMsgSend mSend) = Done (resp, None, ctx') /\
       authz.Accept resp = true) /\
    ((forall addr, In addr allowed -> (BytesToString addr).1 <> ToAddress mSend) ->
     exists ctx',
       Accept a ctx (IsMsgSend mSend)
       = Done (authz.zero, Some (unauthorized (ToAddress mSend)), ctx')).
Proof.
  intros Hne Hall Hvalid Hbudget.
  set (a := {| SpendLimit := spendLimit; AllowList := encodings allowed |}).
  exists a. split.
  { unfold NewSendAuthorization. now rewrite toBech32Addresses_encodings. }
  assert (Hrun : Accept a ctx (IsMsgSend mSend) =
                 Done (afterScan a mSend,
                       {| gasMeter :=
                            charged (scanned (ToAddress mSend) (AllowList a))
                              (gasMeter ctx) |})).
  { apply Accept_within; [exact Hvalid |].
    unfold a. cbn [AllowList]. rewrite encodings_length.
    unfold gasCostPerIteration. exact Hbudget. }
  split.
  - intros (addr & Hin & Htext).
    assert (Hlisted : In (ToAddress mSend) (AllowList a)).
    { unfold a, encodings. cbn [AllowList]. apply in_map_iff. now exists addr. }
    destruct (afterScan_accepts a mSend (or_intror Hlisted)) as [Herr Hacc].
    exists (afterScan a mSend).1. eexists. split; [| exact Hacc].
    rewrite Hrun. destruct (afterScan a mSend) as [resp err]. simpl in *.
    now subst err.
  - intros Hnone. eexists. rewrite Hrun. rewrite afterScan_unlisted; [reflexivity | |].
    + unfold a. cbn [AllowList]. intros Hnil.
      apply (f_equal (@length string)) in Hnil. rewrite encodings_length in Hnil.
      destruct allowed; [congruence | discriminate Hnil].
    + unfold a, encodings. cbn [AllowList]. intros Hin.
      apply in_map_iff in Hin. destruct Hin as (addr & Htext & Hin).
      now apply (Hnone addr).
Qed.

End ConstructionComposed.

Lemma toBech32Addresses_first_error_witness :
  @toBech32Addresses sampleCodec [[Byte.x41]; []; [Byte.x42]; []]
  = Panic (CodecError "empty address").
Proof.
  apply (proj2 (@toBech32Addresses_first_error sampleCodec
                  [[Byte.x41]; []; [Byte.x42]; []] (CodecError "empty address"))).
  exists [[Byte.x41]], [], [[Byte.x42]; []], "empty address".
  split; [reflexivity |]. split; [repeat constructor |]. split; reflexivity.
Defined.

Lemma NewSendAuthorization_then_ValidateBasic_witness :
  exists a,
    @NewSendAuthorization sampleCodec [atom 100] [[Byte.x41]; [Byte.x41]] = Done a /\
    ValidateBasic a = Some (Bare ErrDuplicateEntry).
Proof.
  destruct (@NewSendAuthorization_then_ValidateBasic sampleCodec [atom 100]
              [[Byte.x41]; [Byte.x41]])
    as (a & Hbuilt & _ & Hdup & _).
  { repeat constructor. }
  exists a. split; [exact Hbuilt |]. apply Hdup.
  - discriminate.
  - repeat constructor.
  - intros Hnd. apply List.NoDup_cons_iff in Hnd. destruct Hnd as [Hx _].
    apply Hx. now left.
Defined.

Lemma NewSendAuthorization_then_Accept_witness :
  exists a,
    @NewSendAuthorization sampleCodec [atom 100] [[Byte.x41]; [Byte.x42]] = Done a /\
    (exists resp ctx',
       Accept a freshContext (IsMsgSend (send "B" [atom 10])) = Done (resp, None, ctx') /\
       authz.Accept resp = true).
Proof.
  destruct (@NewSendAuthorization_then_Accept sampleCodec [atom 100]
              [[Byte.x41]; [Byte.x42]] freshContext (send "B" [atom 10]))
    as (a & Hbuilt & Haccept & _).
  - discriminate.
  - repeat constructor.
  - reflexivity.
  - simpl. lia.
  - exists a. split; [exact Hbuilt |]. apply Haccept.
    exists [Byte.x42]. split; [right; now left | reflexivity].
Defined.

(** ** Accounting along accepted transfers *)

Section Accounting.

Implicit Types (a : SendAuthorization) (ctx : Context) (mSend : MsgSend).

Lemma spent_app (front back : list MsgSend) d :
  spent (front ++ back) d = spent front d + spent back d.
Proof. induction front as [|m front IH]; simpl; lia. Qed.

Lemma run_allow_list a (transfers : list MsgSend) a2 :
  acceptedRun a transfers a2 -> AllowList a2 = AllowList a.
Proof.
  induction 1 as [a | a ctx m ctx' a1 rest a2 Hstep _ IH]; [reflexivity |].
  apply successor_spend_limit in Hstep. destruct Hstep as (-> & _ & _).
  exact IH.
Qed.

Lemma run_residual a (transfers : list MsgSend) a2 d :
  acceptedRun a transfers a2 ->
  AmountOf (SpendLimit a2) d = AmountOf (SpendLimit a) d - spent transfers d.
Proof.
  induction 1 as [a | a ctx m ctx' a1 rest a2 Hstep _ IH]; simpl; [lia |].
  apply successor_spend_limit in Hstep. destruct Hstep as (-> & _ & _).
  cbn [SpendLimit] in IH. rewrite AmountOf_SafeSub in IH. lia.
Qed.

Lemma run_residual_nonneg a (transfers : list MsgSend) a2 d :
  acceptedRun a transfers a2 -> transfers <> [] ->
  0 <= AmountOf (SpendLimit a2) d.
Proof.
  induction 1 as [a | a ctx m ctx' a1 rest a2 Hstep Hrest IH]; [congruence |].
  intros _. destruct rest as [|m' rest]; [| apply IH; discriminate].
  inversion Hrest; subst.
  apply successor_spend_limit in Hstep. destruct Hstep as (-> & _ & Hvalid).
  cbn [SpendLimit]. rewrite AmountOf_SafeSub.
  pose proof (proj1 (limitValid_iff _ _) Hvalid d). lia.
Qed.

(** X9.  Along a sequence of accepted transfers the record keeps exact
    books: in every denomination the spend limit left is the spend limit
    the sequence started from less the total of what the transfers asked
    for, and the allow-list is the one it started with.  Once at least one
    transfer was accepted, that total is within the starting limit: the
    sequence as a whole cannot over-spend. *)
Theorem acceptedRun_accounting a (transfers : list MsgSend) a2 :
  acceptedRun a transfers a2 ->
  AllowList a2 = AllowList a /\
  forall d,
    AmountOf (SpendLimit a2) d = AmountOf (SpendLimit a) d - spent transfers d /\
    (transfers <> [] -> spent transfers d <= AmountOf (SpendLimit a) d).
Proof.
  intros Hrun. split; [now apply (run_allow_list a transfers) |].
  intros d. pose proof (run_residual a transfers a2 d Hrun) as Hres.
  split; [exact Hres |]. intros Hne.
  pose proof (run_residual_nonneg a transfers a2 d Hrun Hne). lia.
Qed.

Lemma acceptedRun_accounting_witness :
  AllowList {| SpendLimit := [atom 35]; AllowList := [] |} = AllowList openRecord /\
  forall d,
    AmountOf [atom 35] d
    = AmountOf [atom 100] d - spent [send "Z" [atom 40]; send "Y" [atom 25]] d /\
    ([send "Z" [atom 40]; send "Y" [atom 25]] <> [] ->
     spent [send "Z" [atom 40]; send "Y" [atom 25]] d <= AmountOf [atom 100] d).
Proof.
  apply (acceptedRun_accounting openRecord
           [send "Z" [atom 40]; send "Y" [atom 25]]
           {| SpendLimit := [atom 35]; AllowList := [] |}).
  apply (run_step openRecord freshContext (send "Z" [atom 40]) freshContext
           {| SpendLimit := [atom 60]; AllowList := [] |}); [reflexivity |].
  apply (run_step _ freshContext (send "Y" [atom 25]) freshContext
           {| SpendLimit := [atom 35]; AllowList := [] |}); [reflexivity |].
  apply run_done.
Defined.

(** X10.  After a sequence of accepted transfers, a further accepted
    transfer carries the delete signal exactly when, with it, the transfers
    have asked in every denomination for precisely what the starting spend
    limit held: the grant is deleted when it is spent to the last coin, and
    not before. *)
Theorem acceptedRun_exhaustion a (transfers : list MsgSend) a1 ctx mSend resp ctx' :
  acceptedRun a transfers a1 ->
  Accept a1 ctx (IsMsgSend mSend) = Done (resp, None, ctx') ->
  (authz.Delete resp = true <->
   forall d, spent (transfers ++ [mSend]) d = AmountOf (SpendLimit a) d).
Proof.
  intros Hrun Hlast. apply Accept_accepted in Hlast.
  destruct Hlast as (m & Hm & _ & _ & _ & ->). injection Hm as <-. cbv zeta.
  assert (Hzero : IsZero (SafeSub (SpendLimit a1) (Amount mSend)).1 = true <->
                  forall d, spent (transfers ++ [mSend]) d = AmountOf (SpendLimit a) d).
  { rewrite SafeSub_IsZero_iff. split; intros H d; specialize (H d);
      rewrite spent_app in *; simpl in *;
      rewrite (run_residual a transfers a1 d Hrun) in *; lia. }
  destruct (IsZero _); simpl; rewrite <- Hzero; split; congruence.
Qed.

Lemma acceptedRun_exhaustion_witness :
  authz.Delete deleteResponse = true <->
  forall d, spent ([send "Z" [atom 40]] ++ [send "Y" [atom 60]]) d
            = AmountOf [atom 100] d.
Proof.
  apply (acceptedRun_exhaustion openRecord [send "Z" [atom 40]]
           {| SpendLimit := [atom 60]; AllowList := [] |}
           freshContext (send "Y" [atom 60]) deleteResponse freshContext).
  - apply (run_step openRecord freshContext (send "Z" [atom 40]) freshContext
             {| SpendLimit := [atom 60]; AllowList := [] |}); [reflexivity |].
    apply run_done.
  - reflexivity.
Defined.

(** X11.  A grant only shrinks: a transfer that is accepted after a
    sequence of accepted transfers with non-negative amounts would have
    been accepted against the record the sequence started from (given the
    budget for the scan).  Spending never opens up a transfer that was not
    possible before. *)
Theorem acceptedRun_shrinks a (transfers : list MsgSend) a1 ctx1 mSend resp1 ctx1' ctx :
  acceptedRun a transfers a1 ->
  Forall (fun m => nonNegative (Amount m)) transfers ->
  Accept a1 ctx1 (IsMsgSend mSend) = Done (resp1, None, ctx1') ->
  budgetFor a ctx ->
  exists resp ctx',
    Accept a ctx (IsMsgSend mSend) = Done (resp, None, ctx') /\
    authz.Accept resp = true.
Proof.
  intros Hrun Hnn Hlater Hbudget. apply Accept_accepted in Hlater.
  destruct Hlater as (m & Hm & Hvalid & Hpermitted & _ & _). injection Hm as <-.
  rewrite (run_allow_list a transfers a1 Hrun) in Hpermitted.
  assert (Hvalid0 : limitValid a mSend).
  { apply limitValid_iff. intros d.
    pose proof (proj1 (limitValid_iff _ _) Hvalid d).
    pose proof (run_nonincreasing a transfers a1 Hrun Hnn d). lia. }
  rewrite Accept_within by assumption.
  destruct (afterScan_accepts a mSend Hpermitted) as [Herr Hacc].
  exists (afterScan a mSend).1. eexists. split; [| exact Hacc].
  destruct (afterScan a mSend) as [resp err]. simpl in *. now subst err.
Qed.

Lemma acceptedRun_shrinks_witness :
  exists resp ctx',
    Accept listRecord freshContext (IsMsgSend (send "B" [atom 30]))
    = Done (resp, None, ctx') /\
    authz.Accept resp = true.
Proof.
  apply (acceptedRun_shrinks listRecord [send "B" [atom 10]]
           {| SpendLimit := [atom 40]; AllowList := ["B"] |}
           freshContext (send "B" [atom 30])
           (updateResponse {| SpendLimit := [atom 10]; AllowList := ["B"] |})
           {| gasMeter := {| limit := 1000; consumed := 10 |} |}
           freshContext).
  - apply (run_step listRecord freshContext (send "B" [atom 10])
             {| gasMeter := {| limit := 1000; consumed := 10 |} |}
             {| SpendLimit := [atom 40]; AllowList := ["B"] |}); [reflexivity |].
    apply run_done.
  - repeat constructor. simpl. lia.
  - reflexivity.
  - unfold budgetFor, gasCostPerIteration. simpl. lia.
Defined.

End Accounting.

(** ** Accepted transfers commute *)

Section Commutation.

Implicit Types (a : SendAuthorization) (ctx : Context) (mSend : MsgSend).

(** A transfer within the limit to a permitted recipient that leaves
    something over is accepted with a successor, in a context with budget
    for the scan. *)
Lemma Accept_updates a mSend :
  limitValid a mSend ->
  AllowList a = [] \/ In (ToAddress mSend) (AllowList a) ->
  IsZero (SafeSub (SpendLimit a) (Amount mSend)).1 = false ->
  exists ctx',
    Accept a (budgetContext (length (AllowList a))) (IsMsgSend mSend)
    = Done (updateResponse
              {| SpendLimit := (SafeSub (SpendLimit a) (Amount mSend)).1;
                 AllowList := AllowList a |},
            None, ctx').
Proof.
  intros Hvalid Hpermitted Hleft. eexists.
  rewrite Accept_within; [| assumption | simpl; lia].
  rewrite afterScan_permitted by assumption. cbv zeta. now rewrite Hleft.
Qed.

Lemma residual_left_iff (coins coinsB : Coins) :
  IsZero (SafeSub coins coinsB).1 = false <->
  ~ forall d, AmountOf coins d - AmountOf coinsB d = 0.
Proof.
  rewrite <- SafeSub_IsZero_iff. now destruct (IsZero _).
Qed.

(** X12.  Accepted transfers commute: if a first transfer with
    non-negative amounts and then a second are each accepted with a
    successor, then the second and then the first are accepted with a
    successor as well, and the record reached either way has the same
    allow-list and holds the same amount in every denomination. *)
Theorem acceptedRun_commutes a (m1 m2 : MsgSend) a2 :
  acceptedRun a [m1; m2] a2 ->
  nonNegative (Amount m1) ->
  exists a2',
    acceptedRun a [m2; m1] a2' /\
    AllowList a2' = AllowList a2 /\
    forall d, AmountOf (SpendLimit a2') d = AmountOf (SpendLimit a2) d.
Proof.
  intros Hrun Hnn.
  inversion Hrun as [| ? ctxa ? ctxa' a1 ? ? Hstep1 Hrest]; subst.
  inversion Hrest as [| ? ctxb ? ctxb' a20 ? ? Hstep2 Hdone]; subst.
  inversion Hdone; subst.
  pose proof (Accept_accepted _ _ _ _ _ Hstep1) as (m & Hm & _ & Hperm1 & _ & _).
  injection Hm as <-.
  pose proof (Accept_accepted _ _ _ _ _ Hstep2) as (m & Hm & _ & Hperm2 & _ & _).
  injection Hm as <-.
  apply successor_spend_limit in Hstep1. destruct Hstep1 as (-> & Hleft1 & Hvalid1).
  apply successor_spend_limit in Hstep2. destruct Hstep2 as (-> & Hleft2 & Hvalid2).
  cbn [SpendLimit AllowList] in *.
  assert (Hv1 : forall d, AmountOf (Amount m1) d <= AmountOf (SpendLimit a) d)
    by (apply limitValid_iff; exact Hvalid1).
  assert (Hv2 : forall d, AmountOf (Amount m2) d
                          <= AmountOf (SpendLimit a) d - AmountOf (Amount m1) d).
  { intros d. pose proof (proj1 (limitValid_iff _ _) Hvalid2 d) as H.
    cbn [SpendLimit] in H. now rewrite AmountOf_SafeSub in H. }
  assert (Hsome : ~ forall d, AmountOf (SpendLimit a) d - AmountOf (Amount m1) d
                              - AmountOf (Amount m2) d = 0).
  { apply residual_left_iff in Hleft2. intros Hall. apply Hleft2.
    intros d. rewrite AmountOf_SafeSub. apply Hall. }
  assert (Hm1 : forall d, 0 <= AmountOf (Amount m1) d)
    by (intros d; now apply AmountOf_nonNegative).
  set (b1 := {| SpendLimit := (SafeSub (SpendLimit a) (Amount m2)).1;
                AllowList := AllowList a |}).
  assert (Hfirst : exists ctx', Accept a (budgetContext (length (AllowList a)))
                                  (IsMsgSend m2)
                                = Done (updateResponse b1, None, ctx')).
  { apply Accept_updates.
    - apply limitValid_iff. intros d. specialize (Hv2 d). specialize (Hm1 d). lia.
    - exact Hperm2.
    - apply residual_left_iff. intros Hall. apply Hsome. intros d.
      specialize (Hall d). specialize (Hv2 d). specialize (Hm1 d). lia. }
  assert (Hsecond : exists ctx', Accept b1 (budgetContext (length (AllowList b1)))
                                   (IsMsgSend m1)
                                 = Done (updateResponse
                                           {| SpendLimit :=
                                                (SafeSub (SpendLimit b1) (Amount m1)).1;
                                              AllowList := AllowList b1 |},
                                         None, ctx')).
  { apply Accept_updates.
    - apply limitValid_iff. intros d. unfold b1. cbn [SpendLimit].
      rewrite AmountOf_SafeSub. specialize (Hv2 d). lia.
    - exact Hperm1.
    - apply residual_left_iff. intros Hall. apply Hsome. intros d.
      specialize (Hall d). unfold b1 in Hall. cbn [SpendLimit] in Hall.
      rewrite AmountOf_SafeSub in Hall. lia. }
  destruct Hfirst as [ctx1' Hfirst]. destruct Hsecond as [ctx2' Hsecond].
  eexists. split; [| split].
  - eapply run_step; [exact Hfirst |].
    eapply run_step; [exact Hsecond |]. apply run_done.
  - reflexivity.
  - intros d. cbn [SpendLimit]. rewrite !AmountOf_SafeSub. unfold b1.
    cbn [SpendLimit]. rewrite !AmountOf_SafeSub. lia.
Qed.

Lemma acceptedRun_commutes_witness :
  exists a2',
    acceptedRun openRecord [send "Y" [atom 25]; send "Z" [atom 40]] a2' /\
    AllowList a2' = [] /\
    forall d, AmountOf (SpendLimit a2') d = AmountOf [atom 35] d.
Proof.
  apply (acceptedRun_commutes openRecord (send "Z" [atom 40]) (send "Y" [atom 25])
           {| SpendLimit := [atom 35]; AllowList := [] |}).
  - apply (run_step openRecord freshContext (send "Z" [atom 40]) freshContext
             {| SpendLimit := [atom 60]; AllowList := [] |}); [reflexivity |].
    apply (run_step _ freshContext (send "Y" [atom 25]) freshContext
             {| SpendLimit := [atom 35]; AllowList := [] |}); [reflexivity |].
    apply run_done.
  - repeat constructor. simpl. lia.
Defined.

End Commutation.
